(** * cli: the line-editing command processor

    A shallow embedding of [include/cli/detail/commandprocessor.h]
    (class [cli::detail::CommandProcessor]) together with the collaborators
    it drives: the session, the terminal (key-to-symbol translator), the
    input device and the common-prefix resolver. *)

From Stdlib Require Import String Ascii List Arith Bool Lia.
From Stdlib Require Import ZArith.
From ExtLib Require Import Structures.Monad Data.Monads.StateMonad.
From ExtLib Require Import Data.Monads.OptionMonad.
Import ListNotations.
Import MonadNotation.
Local Open Scope list_scope.
Local Open Scope string_scope.
Local Open Scope monad_scope.

(* ===================================================================== *)
(** * Common-prefix resolver ([commonprefix.h]) *)
(* ===================================================================== *)

Module Resolver.

(** Longest common prefix of two strings, by exact character equality. *)
Fixpoint common2 (a b : string) : string :=
  match a, b with
  | String x a', String y b' =>
      if Ascii.eqb x y then String x (common2 a' b') else EmptyString
  | _, _ => EmptyString
  end.

(** Modelled from the spec: [commonprefix.h], included by
    [commandprocessor.h], is not among the sources. The spec (4.2) gives
    the contract: "given a non-empty ordered sequence of strings, return
    the longest string that is a prefix of every element", comparison by
    exact character equality. The sequence is folded from its first
    element. The spec leaves the empty sequence outside the contract; the
    model returns the empty string there. *)
Definition CommonPrefix (v : list string) : string :=
  match v with
  | [] => EmptyString
  | s :: rest => fold_left common2 rest s
  end.

(** [p] is a prefix of every element of [v]. *)
Definition prefix_of_all (p : string) (v : list string) : Prop :=
  forall s, In s v -> String.prefix p s = true.

(** Some character starts every element of [v]. *)
Definition share_first_char (v : list string) : Prop :=
  exists c, forall s, In s v -> exists rest, s = String c rest.

End Resolver.

Import Resolver.

(* ===================================================================== *)
(** * Collaborators of the command processor *)
(* ===================================================================== *)

(** The dispatch key of [NewCommand]: [enum class Symbol], one variant per
    [case] label of the [switch]. *)
Module Symbol.
Inductive t : Type :=
  | nothing | eof | command | down | up | tab | clear.
End Symbol.

(** The characters the processor writes itself. *)
Definition newline : ascii := "010"%char.
Definition htab : ascii := "009"%char.

(** Modelled from the spec: [cli.h] ([CliSession]) is not among the
    sources. Section 6 of the spec lists the operations the processor
    consumes; what each does is owned by the session, so each is a
    transformer of an abstract session state that returns normally.
    [OutStream_write] stands for [session.OutStream() << text]. *)
Class CliSession (S : Type) : Type := {
  Exit : S -> S;
  Feed : string -> S -> S;
  Prompt : S -> S;
  NextCmd : S -> string * S;
  PreviousCmd : string -> S -> string * S;
  GetCompletions : string -> S -> list string * S;
  OutStream_write : string -> S -> S
}.

(** Modelled from the spec: [inputdevice.h] is not among the sources.
    Section 6: [DeactivateInput] / [ActivateInput] pause and resume the
    delivery of key events. *)
Record InputDevice : Type := { active : bool }.

Definition DeactivateInput (_ : InputDevice) : InputDevice :=
  {| active := false |}.
Definition ActivateInput (_ : InputDevice) : InputDevice :=
  {| active := true |}.

(** Modelled from the spec: [terminal.h] ([Terminal<SCREEN>]) is not among
    the sources. Section 6: the terminal owns the edit buffer; [GetLine]
    reads it, [SetLine] replaces it verbatim and puts the cursor at the end
    of the buffer, [Clear] invokes the screen-clear primitive and
    [ResetCursor] puts the cursor at the start of the editable region. *)
Record Terminal : Type := { currentLine : string; position : nat }.

Definition GetLine (t : Terminal) : string := currentLine t.
Definition SetLine (newLine : string) (_ : Terminal) : Terminal :=
  {| currentLine := newLine; position := String.length newLine |}.
Definition Clear (t : Terminal) : Terminal := t.
Definition ResetCursor (t : Terminal) : Terminal :=
  {| currentLine := currentLine t; position := 0 |}.

(** One entry per call the processor makes on a collaborator, in the order
    the calls are made. *)
Inductive Call : Type :=
  | CallExit
  | CallFeed (cmd : string)
  | CallPrompt
  | CallNextCmd
  | CallPreviousCmd (line : string)
  | CallGetCompletions (line : string)
  | CallOutStream (text : string)
  | CallDeactivateInput
  | CallActivateInput
  | CallKeypressed
  | CallGetLine
  | CallSetLine (line : string)
  | CallClear
  | CallResetCursor
  | CallCommonPrefix (completions : list string).

(** The members of [CommandProcessor] ([session], [terminal], [kb]) and
    the calls made so far. *)
Record World (S : Type) : Type := mkWorld {
  session : S;
  terminal : Terminal;
  kb : InputDevice;
  trace : list Call
}.
Arguments mkWorld {S}.
Arguments session {S}.
Arguments terminal {S}.
Arguments kb {S}.
Arguments trace {S}.

(* ===================================================================== *)
(** * The command processor ([commandprocessor.h]) *)
(* ===================================================================== *)

Section Processor.

Context {S : Type} {Sess : CliSession S}.

(** [KeyType] and the translator's [Keypressed] live in the absent
    [terminal.h]; the processor only passes the key through. *)
Variable KeyType : Type.
Variable translate :
  KeyType * ascii -> Terminal -> (Symbol.t * string) * Terminal.

Definition M : Type -> Type := state (World S).

Definition on_session {A} (c : Call) (f : S -> A * S) : M A :=
  mkState (fun w =>
    let (a, s') := f (session w) in
    (a, mkWorld s' (terminal w) (kb w) (trace w ++ [c])%list)).

Definition on_terminal {A} (c : Call) (f : Terminal -> A * Terminal) : M A :=
  mkState (fun w =>
    let (a, t') := f (terminal w) in
    (a, mkWorld (session w) t' (kb w) (trace w ++ [c])%list)).

Definition on_kb (c : Call) (f : InputDevice -> InputDevice) : M unit :=
  mkState (fun w =>
    (tt, mkWorld (session w) (terminal w) (f (kb w)) (trace w ++ [c])%list)).

Definition session_Exit : M unit :=
  on_session CallExit (fun s => (tt, Exit s)).
Definition session_Feed (cmd : string) : M unit :=
  on_session (CallFeed cmd) (fun s => (tt, Feed cmd s)).
Definition session_Prompt : M unit :=
  on_session CallPrompt (fun s => (tt, Prompt s)).
Definition session_NextCmd : M string :=
  on_session CallNextCmd NextCmd.
Definition session_PreviousCmd (line : string) : M string :=
  on_session (CallPreviousCmd line) (PreviousCmd line).
Definition session_GetCompletions (line : string) : M (list string) :=
  on_session (CallGetCompletions line) (GetCompletions line).
Definition session_OutStream (text : string) : M unit :=
  on_session (CallOutStream text) (fun s => (tt, OutStream_write text s)).

Definition kb_DeactivateInput : M unit :=
  on_kb CallDeactivateInput DeactivateInput.
Definition kb_ActivateInput : M unit :=
  on_kb CallActivateInput ActivateInput.

Definition terminal_Keypressed (k : KeyType * ascii) : M (Symbol.t * string) :=
  on_terminal CallKeypressed (translate k).
Definition terminal_GetLine : M string :=
  on_terminal CallGetLine (fun t => (GetLine t, t)).
Definition terminal_SetLine (line : string) : M unit :=
  on_terminal (CallSetLine line) (fun t => (tt, SetLine line t)).
Definition terminal_Clear : M unit :=
  on_terminal CallClear (fun t => (tt, Clear t)).
Definition terminal_ResetCursor : M unit :=
  on_terminal CallResetCursor (fun t => (tt, ResetCursor t)).

(** The local [items] of the [tab] case:
    [for_each(..., [&items](auto& cmd){ items += '\t' + cmd; })]. *)
Definition listing (completions : list string) : string :=
  fold_left (fun items cmd => items ++ String htab cmd) completions "".

(** [CommandProcessor::NewCommand], with the resolver it calls at line 136
    as an argument. Each [break] ends the handling of the event. *)
Definition NewCommandUsing (resolver : list string -> string)
    (s : Symbol.t * string) : M unit :=
  match fst s with
  | Symbol.nothing => ret tt
  | Symbol.eof => session_Exit
  | Symbol.command =>
      kb_DeactivateInput ;;
      session_Feed (snd s) ;;
      session_Prompt ;;
      kb_ActivateInput
  | Symbol.down =>
      cmd <- session_NextCmd ;;
      terminal_SetLine cmd
  | Symbol.up =>
      line <- terminal_GetLine ;;
      cmd <- session_PreviousCmd line ;;
      terminal_SetLine cmd
  | Symbol.tab =>
      line <- terminal_GetLine ;;
      completions <- session_GetCompletions line ;;
      if (List.length completions =? 0)%nat then ret tt
      else if (List.length completions =? 1)%nat then
        terminal_SetLine (nth 0 completions "" ++ " ")
      else
        let commonPrefix := resolver completions in
        if (String.length line <? String.length commonPrefix)%nat then
          terminal_SetLine commonPrefix
        else
          session_OutStream (String newline "") ;;
          session_OutStream (listing completions) ;;
          session_OutStream (String newline "") ;;
          session_Prompt ;;
          terminal_ResetCursor ;;
          terminal_SetLine line
  | Symbol.clear =>
      currentLine <- terminal_GetLine ;;
      terminal_Clear ;;
      session_Prompt ;;
      terminal_ResetCursor ;;
      terminal_SetLine currentLine
  end.

(** [NewCommand] as compiled: the resolver is [CommonPrefix]. *)
Definition NewCommand : Symbol.t * string -> M unit :=
  NewCommandUsing CommonPrefix.

(** [CommandProcessor::Keypressed], the callback registered with the input
    device by the constructor. *)
Definition Keypressed (k : KeyType * ascii) : M unit :=
  s <- terminal_Keypressed k ;;
  NewCommand s.

(** Lines 142-148 on their own: the listing branch of the [tab] case. *)
Definition list_candidates (line : string) (completions : list string)
  : M unit :=
  session_OutStream (String newline "") ;;
  session_OutStream (listing completions) ;;
  session_OutStream (String newline "") ;;
  session_Prompt ;;
  terminal_ResetCursor ;;
  terminal_SetLine line.

(** The world after [m] has run from [w]. *)
Definition after {A} (m : M A) (w : World S) : World S := execState m w.

(** What the session offers for the current buffer. *)
Definition offered (w : World S) : list string :=
  fst (GetCompletions (GetLine (terminal w)) (session w)).

(** The world in which the [tab] case branches: the buffer has been read
    and the session queried (lines 125-126). *)
Definition queried (w : World S) : World S :=
  let line := GetLine (terminal w) in
  mkWorld (snd (GetCompletions line (session w))) (terminal w) (kb w)
          (trace w ++ [CallGetLine; CallGetCompletions line])%list.

(** The calls of the listing branch, from the read of the buffer on. *)
Definition listing_calls (line : string) (completions : list string)
  : list Call :=
  [CallGetLine; CallGetCompletions line;
   CallOutStream (String newline "");
   CallOutStream (listing completions);
   CallOutStream (String newline "");
   CallPrompt; CallResetCursor; CallSetLine line].

(** The calls of the prefix-extension branch. *)
Definition extension_calls (line commonPrefix : string) : list Call :=
  [CallGetLine; CallGetCompletions line; CallSetLine commonPrefix].

(** The calls of each case of the [switch], read off its branches. *)
Definition symbol_calls (sym : Symbol.t) (text : string) (w : World S)
  : list Call :=
  let line := GetLine (terminal w) in
  match sym with
  | Symbol.nothing => []
  | Symbol.eof => [CallExit]
  | Symbol.command =>
      [CallDeactivateInput; CallFeed text; CallPrompt; CallActivateInput]
  | Symbol.down => [CallNextCmd; CallSetLine (fst (NextCmd (session w)))]
  | Symbol.up =>
      [CallGetLine; CallPreviousCmd line;
       CallSetLine (fst (PreviousCmd line (session w)))]
  | Symbol.tab =>
      match offered w with
      | [] => [CallGetLine; CallGetCompletions line]
      | [c] => [CallGetLine; CallGetCompletions line; CallSetLine (c ++ " ")]
      | completions =>
          if (String.length line
                <? String.length (CommonPrefix completions))%nat
          then extension_calls line (CommonPrefix completions)
          else listing_calls line completions
      end
  | Symbol.clear =>
      [CallGetLine; CallClear; CallPrompt; CallResetCursor; CallSetLine line]
  end.

(** The calls [m] makes when run from [w]: what it adds to the trace. *)
Definition calls_during {A} (m : M A) (w : World S) : list Call :=
  skipn (List.length (trace w)) (trace (after m w)).

(** Successive invocations of the registered callback, one per key event,
    each handled to completion before the next. *)
Fixpoint Keypresses (ks : list (KeyType * ascii)) : M unit :=
  match ks with
  | [] => ret tt
  | k :: rest => Keypressed k ;; Keypresses rest
  end.

End Processor.

(** Counting the calls of one kind in a trace. *)
Definition count_calls (kind : Call -> bool) (tr : list Call) : nat :=
  List.length (filter kind tr).

Definition isDeactivateInput (c : Call) : bool :=
  match c with CallDeactivateInput => true | _ => false end.
Definition isActivateInput (c : Call) : bool :=
  match c with CallActivateInput => true | _ => false end.
Definition isFeed (c : Call) : bool :=
  match c with CallFeed _ => true | _ => false end.
Definition isKeypressed (c : Call) : bool :=
  match c with CallKeypressed => true | _ => false end.
Definition isOutStream (c : Call) : bool :=
  match c with CallOutStream _ => true | _ => false end.
Definition isSetLine (c : Call) : bool :=
  match c with CallSetLine _ => true | _ => false end.

(** Replaying a trace on the input device: whether it is active after the
    calls of [tr], having been [act] before. *)
Fixpoint device_after (act : bool) (tr : list Call) : bool :=
  match tr with
  | [] => act
  | CallDeactivateInput :: rest => device_after false rest
  | CallActivateInput :: rest => device_after true rest
  | _ :: rest => device_after act rest
  end.

(** Every [Feed] of [tr] is made while the input device is inactive. *)
Fixpoint feeds_exclusive (act : bool) (tr : list Call) : bool :=
  match tr with
  | [] => true
  | CallDeactivateInput :: rest => feeds_exclusive false rest
  | CallActivateInput :: rest => feeds_exclusive true rest
  | CallFeed _ :: rest => negb act && feeds_exclusive act rest
  | _ :: rest => feeds_exclusive act rest
  end.

(** Every candidate preceded by one horizontal tab, in order. *)
Fixpoint tab_prefixed (completions : list string) : string :=
  match completions with
  | [] => ""
  | cmd :: rest => String htab cmd ++ tab_prefixed rest
  end.

(* ===================================================================== *)
(** * The processor over its collaborators' interface *)
(* ===================================================================== *)

(** Every call [NewCommand] makes, as an action of a monad [m]: the
    members [session], [kb] and [terminal], and the free function
    [CommonPrefix] called at line 136. *)
Record Collaborators (m : Type -> Type) : Type := {
  opExit : m unit;
  opFeed : string -> m unit;
  opPrompt : m unit;
  opNextCmd : m string;
  opPreviousCmd : string -> m string;
  opGetCompletions : string -> m (list string);
  opOutStream : string -> m unit;
  opDeactivateInput : m unit;
  opActivateInput : m unit;
  opGetLine : m string;
  opSetLine : string -> m unit;
  opClear : m unit;
  opResetCursor : m unit;
  opCommonPrefix : list string -> m string
}.
Arguments opExit {m}.
Arguments opFeed {m}.
Arguments opPrompt {m}.
Arguments opNextCmd {m}.
Arguments opPreviousCmd {m}.
Arguments opGetCompletions {m}.
Arguments opOutStream {m}.
Arguments opDeactivateInput {m}.
Arguments opActivateInput {m}.
Arguments opGetLine {m}.
Arguments opSetLine {m}.
Arguments opClear {m}.
Arguments opResetCursor {m}.
Arguments opCommonPrefix {m}.

(** [CommandProcessor::NewCommand], statement by statement, every call an
    action: a call that does not return ends the handling there, the
    later statements are not reached. *)
Definition NewCommandOver {m : Type -> Type} {Mon : Monad m}
    (c : Collaborators m) (s : Symbol.t * string) : m unit :=
  match fst s with
  | Symbol.nothing => ret tt
  | Symbol.eof => opExit c
  | Symbol.command =>
      opDeactivateInput c ;;
      opFeed c (snd s) ;;
      opPrompt c ;;
      opActivateInput c
  | Symbol.down =>
      cmd <- opNextCmd c ;;
      opSetLine c cmd
  | Symbol.up =>
      line <- opGetLine c ;;
      cmd <- opPreviousCmd c line ;;
      opSetLine c cmd
  | Symbol.tab =>
      line <- opGetLine c ;;
      completions <- opGetCompletions c line ;;
      if (List.length completions =? 0)%nat then ret tt
      else if (List.length completions =? 1)%nat then
        opSetLine c (nth 0 completions "" ++ " ")
      else
        commonPrefix <- opCommonPrefix c completions ;;
        if (String.length line <? String.length commonPrefix)%nat then
          opSetLine c commonPrefix
        else
          opOutStream c (String newline "") ;;
          opOutStream c (listing completions) ;;
          opOutStream c (String newline "") ;;
          opPrompt c ;;
          opResetCursor c ;;
          opSetLine c line
  | Symbol.clear =>
      currentLine <- opGetLine c ;;
      opClear c ;;
      opPrompt c ;;
      opResetCursor c ;;
      opSetLine c currentLine
  end.

Definition isCommonPrefix (c : Call) : bool :=
  match c with CallCommonPrefix _ => true | _ => false end.

Section TracedResolver.

Context {S : Type} {Sess : CliSession S}.

(** The collaborators of [NewCommandUsing], with a resolver [resolve] of
    one's choice. *)
Definition collaborators (resolve : list string -> M string)
  : Collaborators (@M S) := {|
  opExit := session_Exit;
  opFeed := session_Feed;
  opPrompt := session_Prompt;
  opNextCmd := session_NextCmd;
  opPreviousCmd := session_PreviousCmd;
  opGetCompletions := session_GetCompletions;
  opOutStream := session_OutStream;
  opDeactivateInput := kb_DeactivateInput;
  opActivateInput := kb_ActivateInput;
  opGetLine := terminal_GetLine;
  opSetLine := terminal_SetLine;
  opClear := terminal_Clear;
  opResetCursor := terminal_ResetCursor;
  opCommonPrefix := resolve
|}.

(** The call [CommonPrefix(completions)] with its argument recorded in the
    trace. *)
Definition traced_CommonPrefix (completions : list string) : M string :=
  mkState (fun w : World S =>
    (CommonPrefix completions,
     mkWorld (session w) (terminal w) (kb w)
             (trace w ++ [CallCommonPrefix completions])%list)).

(** [NewCommand] with every call of the resolver on record. *)
Definition NewCommandTraced : Symbol.t * string -> M unit :=
  NewCommandOver (collaborators traced_CommonPrefix).

(** The calls of each case with the resolver on record: as
    [symbol_calls], with the call of line 136 where the source has it,
    after the two guards and before the comparison. *)
Definition traced_symbol_calls (sym : Symbol.t) (text : string) (w : World S)
  : list Call :=
  let line := GetLine (terminal w) in
  match sym with
  | Symbol.tab =>
      match offered w with
      | [] => [CallGetLine; CallGetCompletions line]
      | [c] => [CallGetLine; CallGetCompletions line; CallSetLine (c ++ " ")]
      | completions =>
          [CallGetLine; CallGetCompletions line;
           CallCommonPrefix completions] ++
          (if (String.length line
                 <? String.length (CommonPrefix completions))%nat
           then [CallSetLine (CommonPrefix completions)]
           else [CallOutStream (String newline "");
                 CallOutStream (listing completions);
                 CallOutStream (String newline "");
                 CallPrompt; CallResetCursor; CallSetLine line])%list
      end
  | _ => symbol_calls sym text w
  end.

End TracedResolver.

(* ===================================================================== *)
(** * A session whose operations may throw *)
(* ===================================================================== *)

(** Modelled from the spec: [cli.h] is not among the sources. Section 4.1:
    a failure in a session operation "is not caught here". Each operation
    either returns ([Some]) or throws ([None]); what it did to the session
    before throwing stays done. *)
Class ThrowingSession (S : Type) : Type := {
  Exit_or_throw : S -> option unit * S;
  Feed_or_throw : string -> S -> option unit * S;
  Prompt_or_throw : S -> option unit * S;
  NextCmd_or_throw : S -> option string * S;
  PreviousCmd_or_throw : string -> S -> option string * S;
  GetCompletions_or_throw : string -> S -> option (list string) * S;
  OutStream_or_throw : string -> S -> option unit * S
}.

(** The same session for a caller that only meets calls that return: a
    throw is replaced by a default answer. *)
Definition returning {A} (default : A) (r : option A) : A :=
  match r with Some a => a | None => default end.

Definition session_that_returns {S} (TS : ThrowingSession S) : CliSession S := {|
  Exit s := snd (Exit_or_throw s);
  Feed cmd s := snd (Feed_or_throw cmd s);
  Prompt s := snd (Prompt_or_throw s);
  NextCmd s := (returning "" (fst (NextCmd_or_throw s)), snd (NextCmd_or_throw s));
  PreviousCmd line s :=
    (returning "" (fst (PreviousCmd_or_throw line s)),
     snd (PreviousCmd_or_throw line s));
  GetCompletions line s :=
    (returning [] (fst (GetCompletions_or_throw line s)),
     snd (GetCompletions_or_throw line s));
  OutStream_write text s := snd (OutStream_or_throw text s)
|}.

Section Throwing.

Context {S : Type} {TS : ThrowingSession S}.

(** Handling that may end in an exception: the world as the exception
    left it, and [None] for a handling that did not return. *)
Definition MX : Type -> Type := optionT (state (World S)).

Definition runX {A} (m : MX A) (w : World S) : option A * World S :=
  runState (unOptionT m) w.

(** The calls made between two worlds of one run. *)
Definition calls_between (w w' : World S) : list Call :=
  skipn (List.length (trace w)) (trace w').

Definition throwing_session {A} (c : Call) (f : S -> option A * S) : MX A :=
  mkOptionT (mkState (fun w : World S =>
    let (r, s') := f (session w) in
    (r, mkWorld s' (terminal w) (kb w) (trace w ++ [c])%list))).

(** The terminal and the input device return. *)
Definition returns {A} (m : state (World S) A) : MX A :=
  mkOptionT (mkState (fun w : World S =>
    let (a, w') := runState m w in (Some a, w'))).

Definition throwing_collaborators : Collaborators MX := {|
  opExit := throwing_session CallExit Exit_or_throw;
  opFeed cmd := throwing_session (CallFeed cmd) (Feed_or_throw cmd);
  opPrompt := throwing_session CallPrompt Prompt_or_throw;
  opNextCmd := throwing_session CallNextCmd NextCmd_or_throw;
  opPreviousCmd line :=
    throwing_session (CallPreviousCmd line) (PreviousCmd_or_throw line);
  opGetCompletions line :=
    throwing_session (CallGetCompletions line) (GetCompletions_or_throw line);
  opOutStream text :=
    throwing_session (CallOutStream text) (OutStream_or_throw text);
  opDeactivateInput := returns kb_DeactivateInput;
  opActivateInput := returns kb_ActivateInput;
  opGetLine := returns terminal_GetLine;
  opSetLine line := returns (terminal_SetLine line);
  opClear := returns terminal_Clear;
  opResetCursor := returns terminal_ResetCursor;
  opCommonPrefix completions := ret (CommonPrefix completions)
|}.

(** [NewCommand] bound to a session that may throw. *)
Definition NewCommandThrowing : Symbol.t * string -> MX unit :=
  NewCommandOver throwing_collaborators.

Variable KeyType : Type.
Variable translate :
  KeyType * ascii -> Terminal -> (Symbol.t * string) * Terminal.

(** [Keypressed] and a run of key events for such a session; an exception
    leaves the run. *)
Definition KeypressedThrowing (k : KeyType * ascii) : MX unit :=
  s <- returns (terminal_Keypressed KeyType translate k) ;;
  NewCommandThrowing s.

Fixpoint KeypressesThrowing (ks : list (KeyType * ascii)) : MX unit :=
  match ks with
  | [] => ret tt
  | k :: rest => KeypressedThrowing k ;; KeypressesThrowing rest
  end.

End Throwing.

(* ===================================================================== *)
(** * A scripted session *)
(* ===================================================================== *)

Module Scripted.

(** A session whose answers are fixed in advance: the candidates it offers
    for every line, and a one-entry history. It records what it was fed
    and what was written to its stream. *)
Record script : Type := {
  candidates : list string;
  recalled : string;
  fed : list string;
  written : string;
  exited : bool
}.

#[export] Instance session_of_script : CliSession script := {
  Exit s := {| candidates := candidates s; recalled := recalled s;
               fed := fed s; written := written s; exited := true |};
  Feed cmd s := {| candidates := candidates s; recalled := recalled s;
                   fed := (fed s ++ [cmd])%list; written := written s;
                   exited := exited s |};
  Prompt s := {| candidates := candidates s; recalled := recalled s;
                 fed := fed s; written := written s ++ "> ";
                 exited := exited s |};
  NextCmd s := ("", s);
  PreviousCmd _ s := (recalled s, s);
  GetCompletions _ s := (candidates s, s);
  OutStream_write text s :=
    {| candidates := candidates s; recalled := recalled s;
       fed := fed s; written := written s ++ text; exited := exited s |}
}.

Definition offering (cands : list string) : script :=
  {| candidates := cands; recalled := "last-command"; fed := [];
     written := ""; exited := false |}.

(** The processor bound to a scripted session, the user having typed
    [line]. *)
Definition typed (cands : list string) (line : string) : World script :=
  mkWorld (offering cands)
          {| currentLine := line; position := String.length line |}
          {| active := true |} [].

(** A resolver that fails its contract below two candidates. *)
Definition guarded_resolver (v : list string) : string :=
  match v with
  | [] | [_] => "precondition violated"
  | _ => CommonPrefix v
  end.

End Scripted.

(* ===================================================================== *)
(** * A key translator for the examples *)
(* ===================================================================== *)

Module Typing.

(** Keys as a user presses them. This translator is a stand-in used to
    run [Keypressed] on concrete input: a printable key extends the
    buffer, return submits and empties it, the others only name their
    symbol. *)
Inductive KeyType : Type :=
  | printable | ret | arrow_up | arrow_down | ctrl_d | tabulator | ctrl_l.

Definition translator (k : KeyType * ascii) (t : Terminal)
  : (Symbol.t * string) * Terminal :=
  match fst k with
  | printable =>
      (Symbol.nothing, "", SetLine (currentLine t ++ String (snd k) "") t)
  | ret => (Symbol.command, currentLine t, SetLine "" t)
  | arrow_up => (Symbol.up, "", t)
  | arrow_down => (Symbol.down, "", t)
  | ctrl_d => (Symbol.eof, "", t)
  | tabulator => (Symbol.tab, "", t)
  | ctrl_l => (Symbol.clear, "", t)
  end.

End Typing.

(* ===================================================================== *)
(** * A scripted session with a command that throws *)
(* ===================================================================== *)

Module Crashing.

Import Scripted.

(** The scripted session, except that feeding it the command [crash]
    throws, after the command has been recorded. *)
#[export] Instance crashing_session : ThrowingSession script := {
  Exit_or_throw s := (Some tt, Exit s);
  Feed_or_throw cmd s :=
    (if String.eqb cmd "crash" then None else Some tt, Feed cmd s);
  Prompt_or_throw s := (Some tt, Prompt s);
  NextCmd_or_throw s := (Some "", s);
  PreviousCmd_or_throw _ s := (Some (recalled s), s);
  GetCompletions_or_throw _ s := (Some (candidates s), s);
  OutStream_or_throw text s := (Some tt, OutStream_write text s)
}.

End Crashing.

(* ===================================================================== *)
(** * The Windows screen ([winscreen.h]) *)
(* ===================================================================== *)

Module WinScreen.

Local Open Scope Z_scope.

(** [SHORT] is a 16-bit and [int] a 32-bit two's-complement integer,
    [DWORD] a 32-bit unsigned one. *)
Definition SHORT_MIN : Z := - 2 ^ 15.
Definition SHORT_MAX : Z := 2 ^ 15 - 1.
Definition INT_MIN : Z := - 2 ^ 31.
Definition INT_MAX : Z := 2 ^ 31 - 1.

Definition is_SHORT (z : Z) : Prop := SHORT_MIN <= z <= SHORT_MAX.

(** The value an [int] holds after wrap-around. *)
Definition wrap_int (z : Z) : Z := (z + 2 ^ 31) mod 2 ^ 32 - 2 ^ 31.

(** Conversion of an [int] to [DWORD]. *)
Definition to_DWORD (z : Z) : Z := z mod 2 ^ 32.

(** [COORD], and the [dwSize] field of [CONSOLE_SCREEN_BUFFER_INFO]. *)
Record COORD : Type := { X : Z; Y : Z }.

(** The third argument of [FillConsoleOutputCharacter] at line 54:
    [csbi.dwSize.X * csbi.dwSize.Y], both operands promoted to [int], the
    product converted to [DWORD]. *)
Definition fill_length (dwSize : COORD) : Z :=
  to_DWORD (wrap_int (X dwSize * Y dwSize)).

Section Clear.

(** The console behind [GetStdHandle(STD_OUTPUT_HANDLE)] and the three
    functions of the console API that [Clear] calls. *)
Variable Console : Type.
Variable GetConsoleScreenBufferInfo : Console -> COORD.
Variable FillConsoleOutputCharacter :
  ascii -> Z -> COORD -> Console -> Console.
Variable SetConsoleCursorPosition : COORD -> Console -> Console.

(** [WinScreen::Clear]; the stream argument is unnamed and unused. *)
Definition Clear {Stream : Type} (_ : Stream) (hStdOut : Console) : Console :=
  let coord := {| X := 0; Y := 0 |} in
  let dwSize := GetConsoleScreenBufferInfo hStdOut in
  let filled :=
    FillConsoleOutputCharacter " "%char (fill_length dwSize) coord hStdOut in
  SetConsoleCursorPosition coord filled.

End Clear.

End WinScreen.

(* ===================================================================== *)
(** * Lemmas on the resolver *)
(* ===================================================================== *)

Section ResolverFacts.

Lemma prefix_empty (s : string) : String.prefix "" s = true.
Proof. destruct s; reflexivity. Qed.

Lemma prefix_refl (s : string) : String.prefix s s = true.
Proof.
  induction s as [|c s IH]; simpl; [reflexivity|].
  destruct (ascii_dec c c); [exact IH | congruence].
Qed.

Lemma prefix_cons c p d s :
  String.prefix (String c p) (String d s) = true <->
  c = d /\ String.prefix p s = true.
Proof.
  simpl. destruct (ascii_dec c d) as [->|Hne]; split; intros H.
  - split; [reflexivity | exact H].
  - apply H.
  - discriminate.
  - destruct H as [H _]. contradiction.
Qed.

Lemma prefix_nil_r p : String.prefix p "" = true -> p = "".
Proof. destruct p; [reflexivity | discriminate]. Qed.

Lemma prefix_trans p q s :
  String.prefix p q = true -> String.prefix q s = true ->
  String.prefix p s = true.
Proof.
  revert q s. induction p as [|c p IH]; intros q s Hpq Hqs.
  - apply prefix_empty.
  - destruct q as [|d q]; [discriminate|].
    destruct s as [|e s]; [discriminate|].
    apply prefix_cons in Hpq as [-> Hpq].
    apply prefix_cons in Hqs as [-> Hqs].
    apply prefix_cons. split; [reflexivity | eapply IH; eassumption].
Qed.

Lemma prefix_length p s :
  String.prefix p s = true -> String.length p <= String.length s.
Proof.
  revert s. induction p as [|c p IH]; intros s H; simpl; [lia|].
  destruct s as [|d s]; [discriminate|].
  apply prefix_cons in H as [_ H]. apply IH in H. simpl. lia.
Qed.

Lemma prefix_same_length p s :
  String.prefix p s = true -> String.length s <= String.length p -> p = s.
Proof.
  revert s. induction p as [|c p IH]; intros s H L.
  - destruct s; [reflexivity | simpl in L; lia].
  - destruct s as [|d s]; [discriminate|].
    apply prefix_cons in H as [-> H]. simpl in L.
    f_equal. apply IH; [exact H | lia].
Qed.

(** The pairwise resolver is a lower bound of its arguments ... *)
Lemma common2_prefix_l a b : String.prefix (common2 a b) a = true.
Proof.
  revert b. induction a as [|x a IH]; intros b; [reflexivity|].
  destruct b as [|y b]; [reflexivity|]. simpl common2.
  destruct (Ascii.eqb x y); [|reflexivity].
  apply prefix_cons. split; [reflexivity | apply IH].
Qed.

Lemma common2_prefix_r a b : String.prefix (common2 a b) b = true.
Proof.
  revert b. induction a as [|x a IH]; intros b; [apply prefix_empty|].
  destruct b as [|y b]; [reflexivity|]. simpl common2.
  destruct (Ascii.eqb_spec x y) as [->|]; [|reflexivity].
  apply prefix_cons. split; [reflexivity | apply IH].
Qed.

(** ... and the greatest one. *)
Lemma common2_greatest q a b :
  String.prefix q a = true -> String.prefix q b = true ->
  String.prefix q (common2 a b) = true.
Proof.
  revert a b. induction q as [|c q IH]; intros a b Ha Hb.
  - apply prefix_empty.
  - destruct a as [|x a]; [discriminate|].
    destruct b as [|y b]; [discriminate|].
    apply prefix_cons in Ha as [-> Ha].
    apply prefix_cons in Hb as [-> Hb].
    simpl common2. rewrite Ascii.eqb_refl.
    apply prefix_cons. split; [reflexivity | apply IH; assumption].
Qed.

Lemma fold_common2_prefix_acc rest acc :
  String.prefix (fold_left common2 rest acc) acc = true.
Proof.
  revert acc. induction rest as [|s rest IH]; intros acc; simpl.
  - apply prefix_refl.
  - eapply prefix_trans; [apply IH | apply common2_prefix_l].
Qed.

Lemma fold_common2_prefix_in rest acc s :
  In s rest -> String.prefix (fold_left common2 rest acc) s = true.
Proof.
  revert acc. induction rest as [|t rest IH]; intros acc Hin; [destruct Hin|].
  simpl. destruct Hin as [->|Hin].
  - eapply prefix_trans; [apply fold_common2_prefix_acc | apply common2_prefix_r].
  - apply IH, Hin.
Qed.

Lemma fold_common2_greatest q rest acc :
  String.prefix q acc = true -> prefix_of_all q rest ->
  String.prefix q (fold_left common2 rest acc) = true.
Proof.
  revert acc. induction rest as [|t rest IH]; intros acc Hacc Hall; simpl.
  - exact Hacc.
  - apply IH.
    + apply common2_greatest; [exact Hacc | apply Hall; left; reflexivity].
    + intros s Hs. apply Hall. right. exact Hs.
Qed.

Lemma CommonPrefix_lower v : prefix_of_all (CommonPrefix v) v.
Proof.
  destruct v as [|s rest]; intros t Hin; [destruct Hin|].
  simpl. destruct Hin as [<-|Hin].
  - apply fold_common2_prefix_acc.
  - apply fold_common2_prefix_in, Hin.
Qed.

Lemma CommonPrefix_greatest v q :
  v <> [] -> prefix_of_all q v -> String.prefix q (CommonPrefix v) = true.
Proof.
  destruct v as [|s rest]; intros Hne Hall; [congruence|].
  simpl. apply fold_common2_greatest.
  - apply Hall. left. reflexivity.
  - intros t Ht. apply Hall. right. exact Ht.
Qed.

End ResolverFacts.

(** C1. For a non-empty sequence of candidates, [CommonPrefix] returns a
    prefix of every candidate and no strictly longer string is a prefix of
    every candidate; when all candidates equal one string the result is
    that string, and when no character starts all of them the result is
    the empty string. *)
Theorem CommonPrefix_longest_common_prefix (v : list string) (Hne : v <> []) :
  prefix_of_all (CommonPrefix v) v
  /\ (forall q, prefix_of_all q v ->
        ~ String.length (CommonPrefix v) < String.length q)
  /\ (forall e, (forall s, In s v -> s = e) -> CommonPrefix v = e)
  /\ (~ share_first_char v -> CommonPrefix v = "").
Proof.
  assert (Hlow := CommonPrefix_lower v).
  split; [exact Hlow|]. split; [|split].
  - intros q Hq Hlt.
    apply (CommonPrefix_greatest v q Hne), prefix_length in Hq. lia.
  - intros e He.
    destruct v as [|s rest]; [congruence|].
    assert (Hs : s = e) by (apply He; left; reflexivity). subst s.
    apply prefix_same_length.
    + apply Hlow. left. reflexivity.
    + apply prefix_length, CommonPrefix_greatest; [exact Hne|].
      intros t Ht. rewrite (He t Ht). apply prefix_refl.
  - intros Hno.
    destruct (CommonPrefix v) as [|c p] eqn:E; [reflexivity|].
    exfalso. apply Hno. exists c. intros s Hs.
    specialize (Hlow s Hs).
    destruct s as [|d s]; [discriminate|].
    apply prefix_cons in Hlow as [-> _]. eexists. reflexivity.
Qed.

Lemma CommonPrefix_longest_common_prefix_witness :
  let v := ["status"; "stop"; "start"] in
  v <> []
  /\ CommonPrefix v = "st"
  /\ prefix_of_all (CommonPrefix v) v
  /\ (forall q, prefix_of_all q v ->
        ~ String.length (CommonPrefix v) < String.length q)
  /\ (forall e, (forall s, In s v -> s = e) -> CommonPrefix v = e)
  /\ (~ share_first_char v -> CommonPrefix v = "").
Proof.
  refine (conj _ (conj _
    (CommonPrefix_longest_common_prefix ["status"; "stop"; "start"] _))).
  - discriminate.
  - reflexivity.
  - discriminate.
Defined.

(** The edge cases of section 4.2 on concrete sequences. *)
Example CommonPrefix_identical :
  CommonPrefix ["help"; "help"; "help"] = "help".
Proof. reflexivity. Qed.

Example CommonPrefix_disjoint : CommonPrefix ["exit"; "help"] = "".
Proof. reflexivity. Qed.

Example CommonPrefix_single : CommonPrefix ["status"] = "status".
Proof. reflexivity. Qed.

Example CommonPrefix_case_sensitive : CommonPrefix ["Stop"; "stop"] = "".
Proof. reflexivity. Qed.

(* ===================================================================== *)
(** * Lemmas on the command processor *)
(* ===================================================================== *)

Section ProcessorFacts.

Context {S : Type} {Sess : CliSession S}.

Lemma string_app_nil_r (a : string) : a ++ "" = a.
Proof. induction a as [|c a IH]; simpl; [reflexivity | now rewrite IH]. Qed.

Lemma string_app_assoc (a b c : string) : (a ++ b) ++ c = a ++ (b ++ c).
Proof. induction a as [|x a IH]; simpl; [reflexivity | now rewrite IH]. Qed.

Lemma fold_items_acc (completions : list string) (items : string) :
  fold_left (fun items cmd => items ++ String htab cmd) completions items
  = items ++ tab_prefixed completions.
Proof.
  revert items. induction completions as [|cmd rest IH]; intros items; simpl.
  - symmetry. apply string_app_nil_r.
  - rewrite IH, string_app_assoc. reflexivity.
Qed.

Lemma listing_tab_prefixed (completions : list string) :
  listing completions = tab_prefixed completions.
Proof. unfold listing. now rewrite fold_items_acc. Qed.

(** Every handling returns [tt]; only the world matters. *)
Lemma run_after {A} (m : M A) (w : World S) :
  runState m w = (fst (runState m w), after m w).
Proof. unfold after, execState. now destruct (runState m w). Qed.

(** The [tab] case, branch by branch, from the world it queried. *)
Lemma tab_unfold (resolver : list string -> string) text (w : World S) :
  runState (NewCommandUsing resolver (Symbol.tab, text)) w =
  (tt,
   match offered w with
   | [] => queried w
   | [c] => after (terminal_SetLine (c ++ " ")) (queried w)
   | completions =>
       if (String.length (GetLine (terminal w))
             <? String.length (resolver completions))%nat
       then after (terminal_SetLine (resolver completions)) (queried w)
       else after (list_candidates (GetLine (terminal w)) completions)
                  (queried w)
   end).
Proof.
  unfold offered, queried, after, NewCommandUsing, execState.
  destruct w as [s t k tr]. cbn -[Nat.ltb Nat.eqb listing].
  destruct (GetCompletions (GetLine t) s) as [cs s1].
  cbn -[Nat.ltb Nat.eqb listing]. rewrite <- app_assoc.
  destruct cs as [|c [|c' cs]]; cbn -[Nat.ltb listing]; try reflexivity.
  match goal with |- context [(?a <? ?b)%nat] => destruct (a <? b)%nat end;
    reflexivity.
Qed.

Lemma after_SetLine (line : string) (w : World S) :
  after (terminal_SetLine line) w =
  mkWorld (session w) (SetLine line (terminal w)) (kb w)
          (trace w ++ [CallSetLine line])%list.
Proof. reflexivity. Qed.

Lemma after_list_candidates (line : string) cs (w : World S) :
  after (list_candidates line cs) w =
  mkWorld
    (Prompt (OutStream_write (String newline "")
       (OutStream_write (listing cs)
          (OutStream_write (String newline "") (session w)))))
    (SetLine line (ResetCursor (terminal w)))
    (kb w)
    (trace w ++ [CallOutStream (String newline "");
                 CallOutStream (listing cs);
                 CallOutStream (String newline "");
                 CallPrompt; CallResetCursor; CallSetLine line])%list.
Proof.
  unfold after, execState, list_candidates. cbn -[listing].
  rewrite <- !app_assoc. reflexivity.
Qed.

(** The prefix-extension branch: at least two candidates and a common
    prefix strictly longer than the buffer. *)
Lemma tab_extension text (w : World S) :
  2 <= List.length (offered w) ->
  String.length (GetLine (terminal w))
    < String.length (CommonPrefix (offered w)) ->
  after (NewCommand (Symbol.tab, text)) w =
  mkWorld (snd (GetCompletions (GetLine (terminal w)) (session w)))
          (SetLine (CommonPrefix (offered w)) (terminal w))
          (kb w)
          (trace w ++ extension_calls (GetLine (terminal w))
                                      (CommonPrefix (offered w)))%list.
Proof.
  intros H2 Hlt. unfold after at 1, execState, NewCommand.
  rewrite tab_unfold. cbn [snd].
  destruct (offered w) as [|c [|c' cs]] eqn:E; simpl in H2; try lia.
  apply Nat.ltb_lt in Hlt. rewrite Hlt, after_SetLine.
  unfold queried, extension_calls. cbn [session terminal kb trace].
  rewrite <- app_assoc. reflexivity.
Qed.

(** The listing branch: at least two candidates and a common prefix no
    longer than the buffer. *)
Lemma tab_listing text (w : World S) :
  2 <= List.length (offered w) ->
  String.length (CommonPrefix (offered w))
    <= String.length (GetLine (terminal w)) ->
  after (NewCommand (Symbol.tab, text)) w =
  mkWorld
    (Prompt (OutStream_write (String newline "")
       (OutStream_write (listing (offered w))
          (OutStream_write (String newline "")
             (snd (GetCompletions (GetLine (terminal w)) (session w)))))))
    (SetLine (GetLine (terminal w)) (ResetCursor (terminal w)))
    (kb w)
    (trace w ++ listing_calls (GetLine (terminal w)) (offered w))%list.
Proof.
  intros H2 Hle. unfold after at 1, execState, NewCommand.
  rewrite tab_unfold. cbn [snd].
  destruct (offered w) as [|c [|c' cs]] eqn:E; simpl in H2; try lia.
  apply Nat.ltb_ge in Hle. rewrite Hle, after_list_candidates.
  unfold queried, listing_calls. cbn [session terminal kb trace].
  rewrite <- app_assoc. reflexivity.
Qed.

End ProcessorFacts.

(* ===================================================================== *)
(** * The properties of the specification *)
(* ===================================================================== *)

Import Scripted.

(** C2. Handling a [command] symbol with text [text] is, in this order:
    deactivate the input device, feed [text] to the session, redisplay the
    prompt, reactivate the input device. The input device is inactive in
    the world in which [Feed] is invoked and stays so until [Prompt] has
    returned; it is active right after. *)
Theorem command_is_input_exclusive {S} {Sess : CliSession S}
    (text : string) (w : World S) :
  let w1 := after kb_DeactivateInput w in
  let w2 := after (session_Feed text) w1 in
  let w3 := after session_Prompt w2 in
  let w4 := after kb_ActivateInput w3 in
  after (NewCommand (Symbol.command, text)) w = w4
  /\ active (kb w1) = false
  /\ active (kb w3) = false
  /\ active (kb w4) = true
  /\ session w4 = Prompt (Feed text (session w))
  /\ terminal w4 = terminal w
  /\ trace w4 = (trace w ++ [CallDeactivateInput; CallFeed text;
                             CallPrompt; CallActivateInput])%list.
Proof.
  destruct w as [s t k tr]. cbn.
  repeat split; try reflexivity.
  unfold after, execState. cbn. now rewrite <- !app_assoc.
Qed.

(** C3. When the session offers exactly one candidate [c] at a [tab]
    symbol, the edit buffer afterwards is [c] followed by one space,
    whatever the buffer held before. *)
Theorem tab_single_candidate {S} {Sess : CliSession S}
    (text : string) (w : World S) (c : string) :
  offered w = [c] ->
  GetLine (terminal (after (NewCommand (Symbol.tab, text)) w)) = c ++ " ".
Proof.
  intros H. unfold after at 1, execState, NewCommand.
  rewrite tab_unfold, H. reflexivity.
Qed.

Lemma tab_single_candidate_witness :
  offered (typed ["status"] "stat") = ["status"]
  /\ GetLine (terminal (after (NewCommand (Symbol.tab, ""))
                              (typed ["status"] "stat"))) = "status ".
Proof.
  split; [reflexivity|].
  apply (tab_single_candidate "" (typed ["status"] "stat") "status").
  reflexivity.
Defined.

(** C4. At a [tab] symbol with at least two candidates whose common prefix
    is not strictly longer than the buffer, the edit buffer afterwards
    equals the buffer before, although the listing was written to the
    session's stream. *)
Theorem tab_listing_keeps_buffer {S} {Sess : CliSession S}
    (text : string) (w : World S) :
  2 <= List.length (offered w) ->
  ~ String.length (GetLine (terminal w))
      < String.length (CommonPrefix (offered w)) ->
  let w' := after (NewCommand (Symbol.tab, text)) w in
  GetLine (terminal w') = GetLine (terminal w)
  /\ In (CallOutStream (listing (offered w))) (trace w').
Proof.
  intros H2 Hnl w'. subst w'. rewrite tab_listing by lia.
  split; [reflexivity|]. cbn [trace]. apply in_or_app. right.
  unfold listing_calls. simpl. tauto.
Qed.

Lemma tab_listing_keeps_buffer_witness :
  let w := typed ["status"; "stop"; "start"] "st" in
  let w' := after (NewCommand (Symbol.tab, "")) w in
  GetLine (terminal w') = "st"
  /\ In (CallOutStream (listing ["status"; "stop"; "start"])) (trace w').
Proof.
  refine (tab_listing_keeps_buffer ""
            (typed ["status"; "stop"; "start"] "st") _ _).
  - vm_compute. lia.
  - vm_compute. lia.
Defined.

(** C5. At a [tab] symbol with at least two candidates, the
    prefix-extension branch (the buffer is set to the common prefix and
    nothing else happens) is taken exactly when the common prefix is
    strictly longer than the buffer; when it is no longer, and so when the
    two lengths are equal, the listing branch is taken. *)
Theorem tab_extends_iff_prefix_longer {S} {Sess : CliSession S}
    (text : string) (w : World S) :
  2 <= List.length (offered w) ->
  let line := GetLine (terminal w) in
  let commonPrefix := CommonPrefix (offered w) in
  let w' := after (NewCommand (Symbol.tab, text)) w in
  (trace w' = (trace w ++ extension_calls line commonPrefix)%list
     <-> String.length line < String.length commonPrefix)
  /\ (String.length line < String.length commonPrefix ->
        GetLine (terminal w') = commonPrefix)
  /\ (String.length commonPrefix = String.length line ->
        trace w' = (trace w ++ listing_calls line (offered w))%list)
  /\ (String.length commonPrefix < String.length line ->
        trace w' = (trace w ++ listing_calls line (offered w))%list).
Proof.
  intros H2 line commonPrefix w'. subst line commonPrefix w'.
  split; [split|split; [|split]].
  - intros Htr.
    destruct (Nat.lt_ge_cases (String.length (GetLine (terminal w)))
                (String.length (CommonPrefix (offered w)))) as [Hlt|Hge];
      [exact Hlt|].
    rewrite tab_listing in Htr by assumption. cbn [trace] in Htr.
    apply app_inv_head in Htr. discriminate Htr.
  - intros Hlt. now rewrite tab_extension.
  - intros Hlt. now rewrite tab_extension.
  - intros Heq. rewrite tab_listing by lia. reflexivity.
  - intros Hlt. rewrite tab_listing by lia. reflexivity.
Qed.

Lemma tab_extends_iff_prefix_longer_witness :
  let w := typed ["stop"; "stat"] "st" in
  2 <= List.length (offered w)
  /\ String.length (CommonPrefix (offered w)) = String.length (GetLine (terminal w))
  /\ trace (after (NewCommand (Symbol.tab, "")) w)
     = listing_calls "st" ["stop"; "stat"].
Proof.
  split; [vm_compute; lia|]. split; [reflexivity|].
  refine (proj1 (proj2 (proj2
    (tab_extends_iff_prefix_longer "" (typed ["stop"; "stat"] "st") _))) _).
  - vm_compute. lia.
  - reflexivity.
Defined.

(** C6. Handling a [clear] symbol while the buffer holds [t] is, in this
    order: read the buffer, clear the screen, redisplay the prompt, reset
    the cursor, set the buffer to [t]; the buffer afterwards is [t]. *)
Theorem clear_restores_buffer {S} {Sess : CliSession S}
    (text : string) (w : World S) :
  let t := GetLine (terminal w) in
  let w' := after (NewCommand (Symbol.clear, text)) w in
  trace w' = (trace w ++ [CallGetLine; CallClear; CallPrompt;
                          CallResetCursor; CallSetLine t])%list
  /\ w' = after (terminal_SetLine t)
            (after terminal_ResetCursor
               (after session_Prompt
                  (after terminal_Clear (after terminal_GetLine w))))
  /\ GetLine (terminal w') = t
  /\ session w' = Prompt (session w).
Proof.
  destruct w as [s t k tr]. unfold after, execState. cbn.
  rewrite <- !app_assoc. repeat split.
Qed.

(** C7. Handling an [eof] symbol makes one call, [Exit], on the session
    and nothing else: no other call is recorded and the terminal and the
    input device are as before. *)
Theorem eof_calls_Exit_only {S} {Sess : CliSession S}
    (text : string) (w : World S) :
  after (NewCommand (Symbol.eof, text)) w =
  mkWorld (Exit (session w)) (terminal w) (kb w)
          (trace w ++ [CallExit])%list.
Proof. reflexivity. Qed.

(** C8. At a [tab] symbol for which the session offers no candidate, the
    handling stops after the query: the calls are the read of the buffer
    and [GetCompletions], the session is as the query left it, the
    terminal and the input device are untouched. *)
Theorem tab_without_candidates {S} {Sess : CliSession S}
    (text : string) (w : World S) :
  offered w = [] ->
  let line := GetLine (terminal w) in
  let w' := after (NewCommand (Symbol.tab, text)) w in
  trace w' = (trace w ++ [CallGetLine; CallGetCompletions line])%list
  /\ session w' = snd (GetCompletions line (session w))
  /\ terminal w' = terminal w
  /\ kb w' = kb w.
Proof.
  intros H line w'. subst line w'. unfold after at 1 2 3 4, execState, NewCommand.
  rewrite tab_unfold, H. cbn [snd]. unfold queried. cbn. repeat split.
Qed.

Lemma tab_without_candidates_witness :
  let w := typed [] "xyz" in
  let w' := after (NewCommand (Symbol.tab, "")) w in
  trace w' = [CallGetLine; CallGetCompletions "xyz"]
  /\ session w' = offering []
  /\ terminal w' = terminal w
  /\ kb w' = kb w.
Proof.
  refine (tab_without_candidates "" (typed [] "xyz") _). reflexivity.
Defined.

(** Two resolvers that agree on every sequence of two or more strings give
    the same handling of every symbol in every world: what the resolver
    returns on the empty and the one-element sequence is never used. *)
Lemma resolver_value_unused_below_two {S} {Sess : CliSession S}
    (r1 r2 : list string -> string) :
  (forall v, 2 <= List.length v -> r1 v = r2 v) ->
  forall (s : Symbol.t * string) (w : World S),
    runState (NewCommandUsing r1 s) w = runState (NewCommandUsing r2 s) w.
Proof.
  intros Hagree [sym text] w.
  destruct sym; try reflexivity.
  rewrite !tab_unfold. f_equal.
  destruct (offered w) as [|c [|c' cs]]; try reflexivity.
  cbv beta iota zeta.
  rewrite (Hagree (c :: c' :: cs)) by (simpl; lia). reflexivity.
Qed.

Example resolver_value_unused_example :
  runState (NewCommandUsing guarded_resolver (Symbol.tab, ""))
           (typed ["status"] "stat")
  = runState (NewCommand (Symbol.tab, "")) (typed ["status"] "stat").
Proof.
  refine (resolver_value_unused_below_two guarded_resolver CommonPrefix _
            (Symbol.tab, "") (typed ["status"] "stat")).
  intros [|c [|c' v]] H; simpl in H; try lia. reflexivity.
Qed.

(** C10. In the listing branch of the [tab] case (at least two candidates,
    common prefix no longer than the buffer) the processor writes to the
    session's stream a newline, then the candidates each preceded by one
    horizontal tab, then a newline; it then redisplays the prompt, resets
    the cursor and sets the buffer. *)
Theorem tab_listing_output {S} {Sess : CliSession S}
    (text : string) (w : World S) :
  2 <= List.length (offered w) ->
  String.length (CommonPrefix (offered w))
    <= String.length (GetLine (terminal w)) ->
  let line := GetLine (terminal w) in
  let w' := after (NewCommand (Symbol.tab, text)) w in
  trace w' = (trace w ++
                [CallGetLine; CallGetCompletions line;
                 CallOutStream (String newline "");
                 CallOutStream (tab_prefixed (offered w));
                 CallOutStream (String newline "");
                 CallPrompt; CallResetCursor; CallSetLine line])%list
  /\ session w' =
       Prompt (OutStream_write (String newline "")
         (OutStream_write (tab_prefixed (offered w))
            (OutStream_write (String newline "")
               (snd (GetCompletions line (session w)))))).
Proof.
  intros H2 Hle line w'. subst line w'.
  rewrite tab_listing by assumption. cbn [trace session].
  unfold listing_calls. rewrite listing_tab_prefixed. split; reflexivity.
Qed.

Lemma tab_listing_output_witness :
  let w := typed ["status"; "stop"; "start"] "st" in
  let w' := after (NewCommand (Symbol.tab, "")) w in
  let items := String htab "status" ++ String htab "stop"
               ++ String htab "start" in
  trace w' = [CallGetLine; CallGetCompletions "st";
              CallOutStream (String newline "");
              CallOutStream items;
              CallOutStream (String newline "");
              CallPrompt; CallResetCursor; CallSetLine "st"]
  /\ session w' =
       Prompt (OutStream_write (String newline "")
         (OutStream_write items
            (OutStream_write (String newline "")
               (offering ["status"; "stop"; "start"])))).
Proof.
  refine (tab_listing_output "" (typed ["status"; "stop"; "start"] "st") _ _).
  - vm_compute. lia.
  - vm_compute. lia.
Defined.

(* ===================================================================== *)
(** * The example scenarios of the specification (section 8) *)
(* ===================================================================== *)

(** Scenario 2: one candidate completes the buffer. *)
Example scenario_single_match :
  currentLine (terminal (after (NewCommand (Symbol.tab, ""))
                               (typed ["status"] "stat"))) = "status ".
Proof. reflexivity. Qed.

(** A common prefix strictly longer than the buffer extends it, and
    nothing reaches the stream. *)
Example scenario_extension :
  let w' := after (NewCommand (Symbol.tab, "")) (typed ["stop"; "store"] "s") in
  currentLine (terminal w') = "sto"
  /\ trace w' = extension_calls "s" "sto"
  /\ written (session w') = "".
Proof. repeat split. Qed.

(** Scenario 4: [up] recalls the session's previous command. *)
Example scenario_history_up :
  let w' := after (NewCommand (Symbol.up, "")) (typed [] "") in
  currentLine (terminal w') = "last-command"
  /\ trace w' = [CallGetLine; CallPreviousCmd ""; CallSetLine "last-command"].
Proof. repeat split. Qed.

(** [down] replaces the buffer by the session's next command. *)
Example scenario_history_down :
  let w' := after (NewCommand (Symbol.down, "")) (typed [] "draft") in
  currentLine (terminal w') = ""
  /\ trace w' = [CallNextCmd; CallSetLine ""].
Proof. repeat split. Qed.

(** [nothing] leaves the world as it is. *)
Lemma nothing_is_a_no_op {S} {Sess : CliSession S}
    (text : string) (w : World S) :
  after (NewCommand (Symbol.nothing, text)) w = w.
Proof. reflexivity. Qed.

(** A submitted command reaches the scripted session and the prompt
    follows it. *)
Example scenario_command :
  let w' := after (NewCommand (Symbol.command, "help")) (typed [] "") in
  fed (session w') = ["help"]
  /\ written (session w') = "> "
  /\ active (kb w') = true.
Proof. repeat split. Qed.

(* ===================================================================== *)
(** * Further lemmas: the calls of an event *)
(* ===================================================================== *)

Section CallsFacts.

Context {S : Type} {Sess : CliSession S}.
Variable KeyType : Type.
Variable translate :
  KeyType * ascii -> Terminal -> (Symbol.t * string) * Terminal.

Lemma skipn_length_app {A} (a b : list A) :
  skipn (List.length a) (a ++ b)%list = b.
Proof. induction a as [|x a IH]; simpl; [reflexivity | exact IH]. Qed.

Lemma calls_during_new {A} (m : M A) (w : World S) (new : list Call) :
  trace (after m w) = (trace w ++ new)%list -> calls_during m w = new.
Proof. intros H. unfold calls_during. rewrite H. apply skipn_length_app. Qed.

Lemma after_bind {A B} (m : M A) (f : A -> M B) (w : World S) :
  after (bind m f) w = after (f (fst (runState m w))) (after m w).
Proof.
  unfold after, execState. cbn. now destruct (runState m w).
Qed.

(** Every case of the [switch] only appends to the trace, and what it
    appends is [symbol_calls]. *)
Lemma trace_after_NewCommand sym text (w : World S) :
  trace (after (NewCommand (sym, text)) w)
  = (trace w ++ symbol_calls sym text w)%list.
Proof.
  destruct sym.
  - simpl. now rewrite app_nil_r.
  - reflexivity.
  - destruct w as [s t k tr]. unfold after, execState. cbn.
    now rewrite <- !app_assoc.
  - destruct w as [s t k tr]. unfold after, execState. cbn.
    destruct (NextCmd s) as [cmd s1]. cbn. now rewrite <- !app_assoc.
  - destruct w as [s t k tr]. unfold after, execState. cbn.
    destruct (PreviousCmd (GetLine t) s) as [cmd s1]. cbn.
    now rewrite <- !app_assoc.
  - unfold after at 1, execState, NewCommand. rewrite tab_unfold. cbn [snd].
    unfold symbol_calls.
    destruct (offered w) as [|c [|c' cs]].
    + reflexivity.
    + rewrite after_SetLine. unfold queried. cbn [trace].
      now rewrite <- app_assoc.
    + cbv zeta.
      match goal with |- context [(?a <? ?b)%nat] => destruct (a <? b)%nat end.
      * rewrite after_SetLine. unfold queried, extension_calls. cbn [trace].
        now rewrite <- app_assoc.
      * rewrite after_list_candidates. unfold queried, listing_calls.
        cbn [trace]. now rewrite <- app_assoc.
  - destruct w as [s t k tr]. unfold after, execState. cbn.
    now rewrite <- !app_assoc.
Qed.

Lemma calls_during_NewCommand sym text (w : World S) :
  calls_during (NewCommand (sym, text)) w = symbol_calls sym text w.
Proof. apply calls_during_new, trace_after_NewCommand. Qed.

(** The input device after an event: reactivated by [command], as it was
    otherwise. *)
Lemma kb_after_NewCommand sym text (w : World S) :
  kb (after (NewCommand (sym, text)) w)
  = match sym with
    | Symbol.command => {| active := true |}
    | _ => kb w
    end.
Proof.
  destruct sym; try reflexivity.
  - destruct w as [s t k tr]. unfold after, execState. cbn.
    now destruct (NextCmd s).
  - destruct w as [s t k tr]. unfold after, execState. cbn.
    now destruct (PreviousCmd (GetLine t) s).
  - unfold after at 1, execState, NewCommand. rewrite tab_unfold. cbn [snd].
    destruct (offered w) as [|c [|c' cs]]; try reflexivity.
    cbv zeta.
    match goal with |- context [(?a <? ?b)%nat] => destruct (a <? b)%nat end.
    + now rewrite after_SetLine.
    + now rewrite after_list_candidates.
Qed.

(** [Keypressed] is the translator followed by the dispatch on its
    result. *)
Lemma after_Keypressed (k : KeyType * ascii) (w : World S) :
  after (Keypressed KeyType translate k) w
  = after (NewCommand (fst (translate k (terminal w))))
          (mkWorld (session w) (snd (translate k (terminal w))) (kb w)
                   (trace w ++ [CallKeypressed])%list).
Proof.
  unfold Keypressed. rewrite after_bind.
  unfold after, execState, terminal_Keypressed, on_terminal. cbn.
  now destruct (translate k (terminal w)).
Qed.

End CallsFacts.

(* ===================================================================== *)
(** * Further properties of the dispatch *)
(* ===================================================================== *)

(** X1. The text of the pair matters to the [command] case only: for any
    other symbol the handling is the same whatever text accompanies it. In
    particular completion works on the terminal's buffer, not on the
    pair's text. *)
Theorem text_used_by_command_only {S} {Sess : CliSession S}
    (sym : Symbol.t) (text1 text2 : string) (w : World S) :
  sym <> Symbol.command ->
  runState (NewCommand (sym, text1)) w = runState (NewCommand (sym, text2)) w.
Proof. intros H. destruct sym; try reflexivity. congruence. Qed.

Lemma text_used_by_command_only_witness :
  runState (NewCommand (Symbol.tab, "ignored")) (typed ["status"] "stat")
  = runState (NewCommand (Symbol.tab, "")) (typed ["status"] "stat").
Proof.
  refine (text_used_by_command_only Symbol.tab "ignored" ""
            (typed ["status"] "stat") _).
  discriminate.
Defined.



(** X3. [Exit] is called on the session exactly for the [eof] symbol. *)
Theorem Exit_called_iff_eof {S} {Sess : CliSession S}
    (sym : Symbol.t) (text : string) (w : World S) :
  In CallExit (calls_during (NewCommand (sym, text)) w) <-> sym = Symbol.eof.
Proof.
  rewrite calls_during_NewCommand. unfold symbol_calls.
  destruct sym; simpl; try (split; [intuition discriminate | discriminate]).
  - tauto.
  - split; [|discriminate].
    destruct (offered w) as [|c [|c' cs]]; simpl; try (intuition discriminate).
    match goal with |- context [(?a <? ?b)%nat] => destruct (a <? b)%nat end;
      simpl; intuition discriminate.
Qed.

(** X4. [Feed] is called exactly for the [command] symbol, and with the
    text of the pair. *)
Theorem Feed_called_iff_command {S} {Sess : CliSession S}
    (sym : Symbol.t) (text cmd : string) (w : World S) :
  In (CallFeed cmd) (calls_during (NewCommand (sym, text)) w)
  <-> sym = Symbol.command /\ cmd = text.
Proof.
  rewrite calls_during_NewCommand. unfold symbol_calls.
  destruct sym; simpl;
    try (split; [intuition discriminate | intros [? _]; discriminate]).
  - split.
    + intros [H | [H | [H | [H | []]]]]; try discriminate.
      injection H as ->. split; reflexivity.
    + intros [_ ->]. right. left. reflexivity.
  - split; [|intros [? _]; discriminate].
    destruct (offered w) as [|c [|c' cs]]; simpl; try (intuition discriminate).
    match goal with |- context [(?a <? ?b)%nat] => destruct (a <? b)%nat end;
      simpl; intuition discriminate.
Qed.

(** X5. [GetCompletions] is queried exactly for the [tab] symbol, and for
    the terminal's current buffer. *)
Theorem GetCompletions_called_iff_tab {S} {Sess : CliSession S}
    (sym : Symbol.t) (text line : string) (w : World S) :
  In (CallGetCompletions line) (calls_during (NewCommand (sym, text)) w)
  <-> sym = Symbol.tab /\ line = GetLine (terminal w).
Proof.
  rewrite calls_during_NewCommand. unfold symbol_calls.
  destruct sym; simpl;
    try (split; [intuition discriminate | intros [? _]; discriminate]).
  - assert (Hin : forall rest,
      In (CallGetCompletions line)
         (CallGetLine :: CallGetCompletions (GetLine (terminal w)) :: rest)
      <-> (line = GetLine (terminal w)
           \/ In (CallGetCompletions line) rest)).
    { intros rest. simpl. split.
      - intros [H | [H | H]]; [discriminate | injection H as <-; now left | now right].
      - intros [-> | H]; [right; now left | right; now right]. }
    destruct (offered w) as [|c [|c' cs]].
    + rewrite Hin. simpl. intuition.
    + rewrite Hin. simpl. intuition discriminate.
    + match goal with |- context [(?a <? ?b)%nat] => destruct (a <? b)%nat end;
        unfold extension_calls, listing_calls; rewrite Hin; simpl;
        intuition discriminate.
Qed.

(** X6. The processor's own insertions into the session's stream, the
    [session.OutStream() << ...] of lines 142 and 145, are made exactly in
    the listing branch: the symbol is [tab], there are at least two
    candidates and their common prefix is no longer than the buffer. The
    session is asked to write its prompt exactly for [command], for
    [clear] and in that listing branch. What [Prompt] and the terminal put
    on the stream themselves is theirs and is not counted here. *)
Theorem own_stream_insertions_iff_listing {S} {Sess : CliSession S}
    (sym : Symbol.t) (text : string) (w : World S) :
  let calls := calls_during (NewCommand (sym, text)) w in
  let lists :=
    sym = Symbol.tab
    /\ 2 <= List.length (offered w)
    /\ String.length (CommonPrefix (offered w))
         <= String.length (GetLine (terminal w)) in
  ((exists out, In (CallOutStream out) calls) <-> lists)
  /\ (In CallPrompt calls
      <-> sym = Symbol.command \/ sym = Symbol.clear \/ lists).
Proof.
  cbv zeta. rewrite calls_during_NewCommand. unfold symbol_calls.
  assert (Hcases :
    offered w = [] \/ (exists c, offered w = [c])
    \/ 2 <= List.length (offered w)).
  { destruct (offered w) as [|c [|c' cs]];
      [left; reflexivity | right; left; now exists c | right; right; simpl; lia]. }
  destruct sym; cbv zeta;
    try (split; split;
         first [ solve [ let H := fresh "H" in
                         intros H; exfalso;
                         match type of H with
                         | ex _ => destruct H as [? H]; simpl in H;
                                   intuition discriminate
                         | _ => simpl in H; intuition discriminate
                         end ]
               | solve [ intros _; simpl; auto 10 ] ]).
  destruct Hcases as [E | [[c E] | H2]].
  - rewrite E. split; split;
      solve [ let H := fresh "H" in
              intros H; exfalso;
              match type of H with
              | ex _ => destruct H as [? H]; simpl in H; intuition discriminate
              | _ => simpl in H; intuition (try discriminate; try lia)
              end ].
  - rewrite E. split; split;
      solve [ let H := fresh "H" in
              intros H; exfalso;
              match type of H with
              | ex _ => destruct H as [? H]; simpl in H; intuition discriminate
              | _ => simpl in H; intuition (try discriminate; try lia)
              end ].
  - destruct (offered w) as [|c [|c' cs]] eqn:E; simpl in H2; try lia.
    rewrite <- E in *.
    destruct (Nat.ltb_spec (String.length (GetLine (terminal w)))
                (String.length (CommonPrefix (offered w)))) as [Hlt|Hge].
    + unfold extension_calls. split; split;
        solve [ let H := fresh "H" in
                intros H; exfalso;
                match type of H with
                | ex _ => destruct H as [? H]; simpl in H;
                          intuition discriminate
                | _ => simpl in H; intuition (try discriminate; try lia)
                end ].
    + assert (Hl : 2 <= List.length (offered w)) by (rewrite E; simpl; lia).
      unfold listing_calls. split; split.
      * intros _. auto.
      * intros _. exists (String newline ""). simpl. tauto.
      * intros _. right. right. auto.
      * intros _. simpl. tauto.
Qed.

(* ===================================================================== *)
(** * Sequences of key events *)
(* ===================================================================== *)

Section KeypressesFacts.

Context {S : Type} {Sess : CliSession S}.
Variable KeyType : Type.
Variable translate :
  KeyType * ascii -> Terminal -> (Symbol.t * string) * Terminal.

(** The world in which the dispatch runs: the translator has seen [k]. *)
Let translated (k : KeyType * ascii) (w : World S) : World S :=
  mkWorld (session w) (snd (translate k (terminal w))) (kb w)
          (trace w ++ [CallKeypressed])%list.

Lemma trace_after_Keypressed (k : KeyType * ascii) (w : World S) :
  trace (after (Keypressed KeyType translate k) w)
  = (trace w ++
      CallKeypressed ::
      symbol_calls (fst (fst (translate k (terminal w))))
                   (snd (fst (translate k (terminal w))))
                   (translated k w))%list.
Proof.
  rewrite after_Keypressed.
  destruct (fst (translate k (terminal w))) as [sym text] eqn:E.
  rewrite trace_after_NewCommand. unfold translated. cbn [trace fst snd].
  now rewrite <- app_assoc.
Qed.

Lemma kb_after_Keypressed (k : KeyType * ascii) (w : World S) :
  active (kb w) = true ->
  active (kb (after (Keypressed KeyType translate k) w)) = true.
Proof.
  intros H. rewrite after_Keypressed.
  destruct (fst (translate k (terminal w))) as [sym text].
  rewrite kb_after_NewCommand. destruct sym; try exact H. reflexivity.
Qed.

Lemma after_Keypresses_cons k rest (w : World S) :
  after (Keypresses KeyType translate (k :: rest)) w
  = after (Keypresses KeyType translate rest)
          (after (Keypressed KeyType translate k) w).
Proof. cbn [Keypresses]. now rewrite after_bind. Qed.

(** A run of key events appends to the trace one block per key: the
    translation, then the calls of the symbol it gave. *)
Lemma trace_after_Keypresses ks : forall (w : World S),
  exists new,
    trace (after (Keypresses KeyType translate ks) w)
      = (trace w ++ new)%list
    /\ count_calls isKeypressed new = List.length ks
    /\ count_calls isDeactivateInput new = count_calls isActivateInput new
    /\ count_calls isFeed new = count_calls isDeactivateInput new
    /\ (forall act, feeds_exclusive act new = true)
    /\ (forall act, act = true -> device_after act new = true).
Proof.
  assert (Hcount : forall kind (a b : list Call),
    count_calls kind (a ++ b)%list = count_calls kind a + count_calls kind b).
  { intros kind a b. unfold count_calls.
    now rewrite filter_app, length_app. }
  assert (Hfeeds : forall a b act,
    feeds_exclusive act (a ++ b)%list
    = feeds_exclusive act a && feeds_exclusive (device_after act a) b).
  { induction a as [|c a IH]; intros b act; [reflexivity|].
    destruct c; simpl; rewrite ?IH; try reflexivity.
    now rewrite andb_assoc. }
  assert (Hdev : forall a b act,
    device_after act (a ++ b)%list = device_after (device_after act a) b).
  { induction a as [|c a IH]; intros b act; [reflexivity|].
    destruct c; simpl; now rewrite ?IH. }
  assert (Hblock : forall sym text (w : World S),
    let blk := symbol_calls sym text w in
    count_calls isKeypressed blk = 0
    /\ count_calls isDeactivateInput blk = count_calls isActivateInput blk
    /\ count_calls isFeed blk = count_calls isDeactivateInput blk
    /\ (forall act, feeds_exclusive act blk = true)
    /\ (forall act, act = true -> device_after act blk = true)
    /\ (forall act, act = true -> device_after act (CallKeypressed :: blk) = true)).
  { intros sym text w. unfold symbol_calls.
    destruct sym; cbv zeta;
      try (repeat split; intros; subst; reflexivity).
    destruct (offered w) as [|c [|c' cs]];
      try (repeat split; intros; subst; reflexivity).
    match goal with |- context [(?a <? ?b)%nat] => destruct (a <? b)%nat end;
      repeat split; intros; subst; reflexivity. }
  induction ks as [|k rest IH]; intros w.
  - exists []. rewrite app_nil_r. repeat split; intros; subst; reflexivity.
  - rewrite after_Keypresses_cons.
    destruct (IH (after (Keypressed KeyType translate k) w))
      as (new & Htr & Hk & Hda & Hfd & Hex & Hact).
    rewrite Htr, trace_after_Keypressed, <- app_assoc.
    set (blk := symbol_calls _ _ _).
    destruct (Hblock (fst (fst (translate k (terminal w))))
                     (snd (fst (translate k (terminal w))))
                     (translated k w))
      as (Bk & Bda & Bfd & Bex & Bact & Bact').
    fold blk in Bk, Bda, Bfd, Bex, Bact, Bact'.
    exists ((CallKeypressed :: blk) ++ new)%list.
    split; [reflexivity|].
    rewrite !Hcount.
    change (CallKeypressed :: blk) with ([CallKeypressed] ++ blk)%list.
    rewrite !Hcount, Bk, Hk.
    split; [reflexivity|]. split; [simpl; lia|]. split; [simpl; lia|].
    split.
    + intros act. rewrite Hfeeds. rewrite Hex, andb_true_r.
      exact (Bex act).
    + intros act Ha. rewrite Hdev. apply Hact.
      exact (Bact' act Ha).
Qed.

End KeypressesFacts.

(** With a session whose calls all return, an input device that is active
    before a run of key events is active after it. *)
Lemma kb_active_after_Keypresses {S} {Sess : CliSession S}
    (KeyType : Type)
    (translate : KeyType * ascii -> Terminal -> (Symbol.t * string) * Terminal)
    (ks : list (KeyType * ascii)) (w : World S) :
  active (kb w) = true ->
  active (kb (after (Keypresses KeyType translate ks) w)) = true.
Proof.
  revert w. induction ks as [|k rest IH]; intros w H; [exact H|].
  rewrite after_Keypresses_cons. apply IH, kb_after_Keypressed, H.
Qed.

(** With a session whose calls all return, a run of key events deactivates
    the input device as often as it reactivates it, and feeds the session
    once per deactivation. *)
Lemma calls_paired_after_Keypresses {S} {Sess : CliSession S}
    (KeyType : Type)
    (translate : KeyType * ascii -> Terminal -> (Symbol.t * string) * Terminal)
    (ks : list (KeyType * ascii)) (w : World S) :
  let calls := calls_during (Keypresses KeyType translate ks) w in
  count_calls isDeactivateInput calls = count_calls isActivateInput calls
  /\ count_calls isFeed calls = count_calls isDeactivateInput calls.
Proof.
  destruct (trace_after_Keypresses KeyType translate ks w)
    as (new & Htr & _ & Hda & Hfd & _).
  cbv zeta. rewrite (calls_during_new _ _ _ Htr). split; assumption.
Qed.

(** X9. Over any run of key events every [Feed] is made while the input
    device is inactive: replaying the calls on the device, whatever its
    state at the start, no [Feed] meets an active device. *)
Theorem Feed_only_while_input_inactive {S} {Sess : CliSession S}
    (KeyType : Type)
    (translate : KeyType * ascii -> Terminal -> (Symbol.t * string) * Terminal)
    (ks : list (KeyType * ascii)) (w : World S) (act : bool) :
  feeds_exclusive act (calls_during (Keypresses KeyType translate ks) w)
  = true.
Proof.
  destruct (trace_after_Keypresses KeyType translate ks w)
    as (new & Htr & _ & _ & _ & Hex & _).
  rewrite (calls_during_new _ _ _ Htr). apply Hex.
Qed.

(** X10. The translator is invoked once per key event, no more and no
    less: the dispatch itself never calls it. *)
Theorem one_translation_per_key {S} {Sess : CliSession S}
    (KeyType : Type)
    (translate : KeyType * ascii -> Terminal -> (Symbol.t * string) * Terminal)
    (ks : list (KeyType * ascii)) (w : World S) :
  count_calls isKeypressed (calls_during (Keypresses KeyType translate ks) w)
  = List.length ks.
Proof.
  destruct (trace_after_Keypresses KeyType translate ks w)
    as (new & Htr & Hk & _).
  now rewrite (calls_during_new _ _ _ Htr).
Qed.

(** A session typed key by key: [ls], return, tab, end of input. *)
Example typed_session_trace :
  trace (after (Keypresses Typing.KeyType Typing.translator
                  [(Typing.printable, "l"%char);
                   (Typing.printable, "s"%char);
                   (Typing.ret, " "%char);
                   (Typing.ctrl_d, " "%char)])
               (typed [] ""))
  = [CallKeypressed; CallKeypressed;
     CallKeypressed; CallDeactivateInput; CallFeed "ls"; CallPrompt;
     CallActivateInput;
     CallKeypressed; CallExit].
Proof. reflexivity. Qed.

(* ===================================================================== *)
(** * Further properties of completion and history *)
(* ===================================================================== *)

Lemma CommonPrefix_all_equal (v : list string) (e : string) :
  v <> [] -> (forall s, In s v -> s = e) -> CommonPrefix v = e.
Proof.
  intros Hne He. destruct v as [|s rest]; [congruence|].
  assert (Hs : s = e) by (apply He; left; reflexivity). subst s.
  apply prefix_same_length.
  - apply (CommonPrefix_lower (e :: rest)). left. reflexivity.
  - apply prefix_length, CommonPrefix_greatest; [exact Hne|].
    intros t Ht. rewrite (He t Ht). apply prefix_refl.
Qed.

Lemma string_length_app (a b : string) :
  String.length (a ++ b) = String.length a + String.length b.
Proof. induction a as [|c a IH]; simpl; [reflexivity | now rewrite IH]. Qed.

(** X11. History recall. For [up] the session is asked for the command
    before the current buffer and the buffer becomes its answer; for
    [down] the buffer becomes the session's next command and the text in
    progress plays no part: any two buffers lead to the same terminal. *)
Theorem history_recall_replaces_buffer {S} {Sess : CliSession S}
    (text : string) (w : World S) (other : Terminal) :
  let line := GetLine (terminal w) in
  let up := after (NewCommand (Symbol.up, text)) w in
  let down := after (NewCommand (Symbol.down, text)) w in
  let down' :=
    after (NewCommand (Symbol.down, text))
          (mkWorld (session w) other (kb w) (trace w)) in
  GetLine (terminal up) = fst (PreviousCmd line (session w))
  /\ session up = snd (PreviousCmd line (session w))
  /\ GetLine (terminal down) = fst (NextCmd (session w))
  /\ session down = snd (NextCmd (session w))
  /\ down' = down.
Proof.
  destruct w as [s t k tr]. unfold after, execState. cbn.
  destruct (PreviousCmd (GetLine t) s) as [p s1].
  destruct (NextCmd s) as [n s2]. cbn. repeat split.
Qed.

(** X12. With at least two candidates a [tab] never shortens the buffer:
    either it is unchanged, or it has become strictly longer and is a
    prefix of every candidate. *)
Theorem tab_with_choices_never_shortens {S} {Sess : CliSession S}
    (text : string) (w : World S) :
  2 <= List.length (offered w) ->
  let line := GetLine (terminal w) in
  let line' := GetLine (terminal (after (NewCommand (Symbol.tab, text)) w)) in
  String.length line <= String.length line'
  /\ (line' = line
      \/ (String.length line < String.length line'
          /\ prefix_of_all line' (offered w))).
Proof.
  intros H2 line line'. subst line line'.
  destruct (Nat.lt_ge_cases (String.length (GetLine (terminal w)))
              (String.length (CommonPrefix (offered w)))) as [Hlt|Hge].
  - rewrite tab_extension by assumption. cbn [terminal GetLine SetLine currentLine].
    split; [lia|]. right. split; [exact Hlt | apply CommonPrefix_lower].
  - rewrite tab_listing by assumption. cbn [terminal GetLine SetLine currentLine].
    split; [apply Nat.le_refl | left; reflexivity].
Qed.

Lemma tab_with_choices_never_shortens_witness :
  let w := typed ["stop"; "store"] "s" in
  let line' := GetLine (terminal (after (NewCommand (Symbol.tab, "")) w)) in
  1 <= String.length line'
  /\ (line' = "s"
      \/ (1 < String.length line' /\ prefix_of_all line' ["stop"; "store"])).
Proof.
  refine (tab_with_choices_never_shortens "" (typed ["stop"; "store"] "s") _).
  vm_compute. lia.
Defined.

(** X13. A second [tab] lists. With at least two candidates, if the
    session offers the same candidates for the buffer the first [tab] left,
    the next [tab] takes the listing branch and leaves that buffer as it
    is: the first [tab] has already used up the common prefix. *)
Theorem second_tab_lists {S} {Sess : CliSession S}
    (text text' : string) (w : World S) :
  2 <= List.length (offered w) ->
  let w1 := after (NewCommand (Symbol.tab, text)) w in
  offered w1 = offered w ->
  let w2 := after (NewCommand (Symbol.tab, text')) w1 in
  calls_during (NewCommand (Symbol.tab, text')) w1
    = listing_calls (GetLine (terminal w1)) (offered w)
  /\ GetLine (terminal w2) = GetLine (terminal w1).
Proof.
  intros H2 w1 Hsame w2.
  assert (Hle : String.length (CommonPrefix (offered w1))
                <= String.length (GetLine (terminal w1))).
  { rewrite Hsame. subst w1.
    destruct (Nat.lt_ge_cases (String.length (GetLine (terminal w)))
                (String.length (CommonPrefix (offered w)))) as [Hlt|Hge].
    - rewrite tab_extension by assumption. apply Nat.le_refl.
    - rewrite tab_listing by assumption. exact Hge. }
  assert (H2' : 2 <= List.length (offered w1)) by now rewrite Hsame.
  subst w2. split.
  - apply calls_during_new. rewrite tab_listing by assumption.
    cbn [trace]. now rewrite Hsame.
  - rewrite tab_listing by assumption. reflexivity.
Qed.

Lemma second_tab_lists_witness :
  let w1 := after (NewCommand (Symbol.tab, "")) (typed ["stop"; "store"] "s") in
  let w2 := after (NewCommand (Symbol.tab, "")) w1 in
  calls_during (NewCommand (Symbol.tab, "")) w1
    = listing_calls "sto" ["stop"; "store"]
  /\ GetLine (terminal w2) = "sto".
Proof.
  refine (second_tab_lists "" "" (typed ["stop"; "store"] "s") _ _).
  - vm_compute. lia.
  - reflexivity.
Defined.

(** X14. Duplicates are not a single match. When the session offers the
    same candidate [c] two or more times, a buffer shorter than [c] is
    completed to [c] itself, without the trailing space of the
    one-candidate case, and a buffer at least as long is kept and the
    duplicates are listed. *)
Theorem tab_identical_candidates {S} {Sess : CliSession S}
    (text : string) (w : World S) (c : string) :
  2 <= List.length (offered w) ->
  (forall x, In x (offered w) -> x = c) ->
  let line := GetLine (terminal w) in
  let w' := after (NewCommand (Symbol.tab, text)) w in
  (String.length line < String.length c ->
     GetLine (terminal w') = c
     /\ calls_during (NewCommand (Symbol.tab, text)) w
        = extension_calls line c)
  /\ (String.length c <= String.length line ->
        GetLine (terminal w') = line
        /\ calls_during (NewCommand (Symbol.tab, text)) w
           = listing_calls line (offered w)).
Proof.
  intros H2 Hall line w'. subst line w'.
  assert (Hcp : CommonPrefix (offered w) = c).
  { apply CommonPrefix_all_equal; [|exact Hall].
    intros E. rewrite E in H2. simpl in H2. lia. }
  split; intros Hlen.
  - split.
    + rewrite tab_extension by (rewrite ?Hcp; assumption). now rewrite Hcp.
    + apply calls_during_new.
      rewrite tab_extension by (rewrite ?Hcp; assumption). now rewrite Hcp.
  - split.
    + rewrite tab_listing by (rewrite ?Hcp; assumption). reflexivity.
    + apply calls_during_new.
      rewrite tab_listing by (rewrite ?Hcp; assumption). reflexivity.
Qed.

Lemma tab_identical_candidates_witness :
  let w := typed ["help"; "help"] "he" in
  let w' := after (NewCommand (Symbol.tab, "")) w in
  (2 < 4 ->
     GetLine (terminal w') = "help"
     /\ calls_during (NewCommand (Symbol.tab, "")) w
        = extension_calls "he" "help")
  /\ (4 <= 2 ->
        GetLine (terminal w') = "he"
        /\ calls_during (NewCommand (Symbol.tab, "")) w
           = listing_calls "he" ["help"; "help"]).
Proof.
  refine (tab_identical_candidates "" (typed ["help"; "help"] "he") "help" _ _).
  - vm_compute. lia.
  - intros x [<- | [<- | []]]; reflexivity.
Defined.

(** X15. The listing text costs one character per candidate on top of the
    candidates themselves: its length is the number of candidates plus the
    sum of their lengths. *)
Theorem listing_length (completions : list string) :
  String.length (listing completions)
  = List.length completions + list_sum (map String.length completions).
Proof.
  rewrite listing_tab_prefixed.
  induction completions as [|cmd rest IH]; [reflexivity|].
  cbn [tab_prefixed List.length map list_sum].
  change (String htab cmd ++ tab_prefixed rest)
    with (String htab (cmd ++ tab_prefixed rest)).
  cbn [String.length]. rewrite string_length_app, IH.
  simpl list_sum. lia.
Qed.

(* ===================================================================== *)
(** * The Windows screen clear *)
(* ===================================================================== *)

Section WinScreenFacts.

Import WinScreen.
Local Open Scope Z_scope.

Lemma wrap_int_small (z : Z) : INT_MIN <= z <= INT_MAX -> wrap_int z = z.
Proof.
  unfold INT_MIN, INT_MAX, wrap_int. intros H.
  rewrite Z.mod_small by lia. lia.
Qed.

Lemma SHORT_product_in_int (x y : Z) :
  is_SHORT x -> is_SHORT y -> INT_MIN <= x * y <= INT_MAX.
Proof.
  unfold is_SHORT, SHORT_MIN, SHORT_MAX, INT_MIN, INT_MAX.
  intros Hx Hy. change (2 ^ 15) with 32768 in *.
  change (2 ^ 31) with 2147483648. nia.
Qed.

End WinScreenFacts.

(** X16. [WinScreen::Clear] asks for the whole screen buffer. The product
    [dwSize.X * dwSize.Y] of two [SHORT]s never overflows [int], and for
    the non-negative sizes of a screen buffer the length handed to
    [FillConsoleOutputCharacter] is exactly the number of cells; both the
    fill and the cursor start at the origin, and the stream argument has
    no part in it. *)
Theorem Clear_fill_length_exact
    (Console Stream : Type)
    (GetConsoleScreenBufferInfo : Console -> WinScreen.COORD)
    (FillConsoleOutputCharacter :
       ascii -> Z -> WinScreen.COORD -> Console -> Console)
    (SetConsoleCursorPosition : WinScreen.COORD -> Console -> Console)
    (out : Stream) (hStdOut : Console) :
  let dwSize := GetConsoleScreenBufferInfo hStdOut in
  let origin := {| WinScreen.X := 0%Z; WinScreen.Y := 0%Z |} in
  WinScreen.is_SHORT (WinScreen.X dwSize) ->
  WinScreen.is_SHORT (WinScreen.Y dwSize) ->
  (0 <= WinScreen.X dwSize)%Z -> (0 <= WinScreen.Y dwSize)%Z ->
  WinScreen.wrap_int (WinScreen.X dwSize * WinScreen.Y dwSize)
    = (WinScreen.X dwSize * WinScreen.Y dwSize)%Z
  /\ WinScreen.Clear Console GetConsoleScreenBufferInfo
       FillConsoleOutputCharacter SetConsoleCursorPosition out hStdOut
     = SetConsoleCursorPosition origin
         (FillConsoleOutputCharacter " "%char
            (WinScreen.X dwSize * WinScreen.Y dwSize)%Z origin hStdOut).
Proof.
  intros dwSize origin HX HY HX0 HY0.
  assert (Hint := SHORT_product_in_int _ _ HX HY).
  assert (Hwrap := wrap_int_small _ Hint).
  split; [exact Hwrap|].
  unfold WinScreen.Clear, WinScreen.fill_length. fold dwSize.
  rewrite Hwrap. unfold WinScreen.to_DWORD.
  rewrite Z.mod_small; [reflexivity|].
  unfold WinScreen.INT_MIN, WinScreen.INT_MAX in Hint.
  split; [apply Z.mul_nonneg_nonneg; assumption | lia].
Qed.

Lemma Clear_fill_length_exact_witness :
  WinScreen.wrap_int (120 * 9001) = (120 * 9001)%Z
  /\ WinScreen.Clear (list (ascii * Z)) (fun _ => {| WinScreen.X := 120%Z; WinScreen.Y := 9001%Z |})
       (fun ch n _ h => (ch, n) :: h) (fun _ h => h) tt []
     = [(" "%char, 1080120%Z)].
Proof.
  refine (Clear_fill_length_exact (list (ascii * Z)) unit
            (fun _ => {| WinScreen.X := 120%Z; WinScreen.Y := 9001%Z |})
            (fun ch n _ h => (ch, n) :: h) (fun _ h => h) tt [] _ _ _ _);
    cbv; intuition discriminate.
Defined.

(* ===================================================================== *)
(** * The call of the resolver *)
(* ===================================================================== *)

Section TracedFacts.

Context {S : Type} {Sess : CliSession S}.

(** With a resolver that only returns a value, the processor over the
    interface is [NewCommandUsing]. *)
Lemma NewCommandOver_pure_resolver (r : list string -> string)
    (s : Symbol.t * string) (w : World S) :
  runState (NewCommandOver (collaborators (fun v => ret (r v))) s) w
  = runState (NewCommandUsing r s) w.
Proof.
  destruct s as [sym text]. destruct sym; try reflexivity.
  destruct w as [s t k tr]. cbn -[Nat.ltb Nat.eqb listing].
  destruct (GetCompletions (GetLine t) s) as [cs s1].
  cbn -[Nat.ltb Nat.eqb listing].
  destruct cs as [|c [|c' cs]]; cbn -[Nat.ltb listing]; reflexivity.
Qed.

Lemma after_traced_CommonPrefix (v : list string) (w : World S) :
  after (traced_CommonPrefix v) w
  = mkWorld (session w) (terminal w) (kb w)
            (trace w ++ [CallCommonPrefix v])%list.
Proof. reflexivity. Qed.

(** The [tab] case with the resolver on record, branch by branch. *)
Lemma traced_tab_unfold text (w : World S) :
  runState (NewCommandTraced (Symbol.tab, text)) w =
  (tt,
   match offered w with
   | [] => queried w
   | [c] => after (terminal_SetLine (c ++ " ")) (queried w)
   | completions =>
       let resolved := after (traced_CommonPrefix completions) (queried w) in
       if (String.length (GetLine (terminal w))
             <? String.length (CommonPrefix completions))%nat
       then after (terminal_SetLine (CommonPrefix completions)) resolved
       else after (list_candidates (GetLine (terminal w)) completions)
                  resolved
   end).
Proof.
  unfold offered, queried, after, NewCommandTraced, NewCommandOver, execState.
  destruct w as [s t k tr]. cbn -[Nat.ltb Nat.eqb listing CommonPrefix].
  destruct (GetCompletions (GetLine t) s) as [cs s1].
  cbn -[Nat.ltb Nat.eqb listing CommonPrefix]. rewrite <- app_assoc.
  destruct cs as [|c [|c' cs]]; cbn -[Nat.ltb listing CommonPrefix];
    try reflexivity.
  match goal with |- context [(?a <? ?b)%nat] => destruct (a <? b)%nat end;
    reflexivity.
Qed.

(** Off the [tab] case the resolver plays no part. *)
Lemma traced_other_symbols sym text (w : World S) :
  sym <> Symbol.tab ->
  runState (NewCommandTraced (sym, text)) w
  = runState (NewCommand (sym, text)) w.
Proof. intros H. destruct sym; try reflexivity. congruence. Qed.

(** The world after the traced handling: the trace grows by
    [traced_symbol_calls], the rest is as after [NewCommand]. *)
Lemma after_NewCommandTraced sym text (w : World S) :
  let traced := after (NewCommandTraced (sym, text)) w in
  let plain := after (NewCommand (sym, text)) w in
  trace traced = (trace w ++ traced_symbol_calls sym text w)%list
  /\ session traced = session plain
  /\ terminal traced = terminal plain
  /\ kb traced = kb plain.
Proof.
  cbv zeta.
  assert (Hother : sym <> Symbol.tab ->
    after (NewCommandTraced (sym, text)) w = after (NewCommand (sym, text)) w
    /\ traced_symbol_calls sym text w = symbol_calls sym text w).
  { intros H. split; [|destruct sym; try reflexivity; congruence].
    unfold after, execState. now rewrite traced_other_symbols. }
  destruct sym;
    try (destruct Hother as [-> ->]; [discriminate|];
         rewrite trace_after_NewCommand; repeat split).
  clear Hother. unfold after at 1 2 3 4 5 6 7, execState, NewCommand.
  rewrite traced_tab_unfold, tab_unfold. cbn [snd].
  unfold traced_symbol_calls.
  destruct (offered w) as [|c [|c' cs]].
  - repeat split.
  - rewrite after_SetLine. unfold queried. cbn [trace session terminal kb].
    rewrite <- app_assoc. repeat split.
  - cbv zeta.
    match goal with |- context [(?a <? ?b)%nat] => destruct (a <? b)%nat end.
    + rewrite !after_SetLine, after_traced_CommonPrefix. unfold queried.
      cbn [trace session terminal kb]. rewrite <- !app_assoc. repeat split.
    + rewrite !after_list_candidates, after_traced_CommonPrefix.
      unfold queried. cbn [trace session terminal kb].
      rewrite <- !app_assoc. repeat split.
Qed.

End TracedFacts.

(** C9. [CommonPrefix] is invoked with at least two candidates only. With
    every call of the resolver on record: a call is recorded exactly when
    the symbol is [tab] and the session offers two or more candidates, its
    argument is then that sequence, and it comes after the query and the
    two guards; no call is made for the empty or the one-element
    sequence, and none is made twice. Apart from that record the handling
    is that of [NewCommand]. *)
Theorem CommonPrefix_called_with_two_or_more {S} {Sess : CliSession S}
    (s : Symbol.t * string) (w : World S) :
  let calls := calls_during (NewCommandTraced s) w in
  let traced := after (NewCommandTraced s) w in
  let plain := after (NewCommand s) w in
  (forall v, In (CallCommonPrefix v) calls -> 2 <= List.length v)
  /\ (forall v, In (CallCommonPrefix v) calls
                <-> fst s = Symbol.tab /\ v = offered w
                    /\ 2 <= List.length (offered w))
  /\ count_calls isCommonPrefix calls <= 1
  /\ (forall v, In (CallCommonPrefix v) calls ->
        exists rest,
          calls = ([CallGetLine; CallGetCompletions (GetLine (terminal w));
                    CallCommonPrefix v] ++ rest)%list)
  /\ filter (fun c => negb (isCommonPrefix c)) calls
     = calls_during (NewCommand s) w
  /\ session traced = session plain
  /\ terminal traced = terminal plain
  /\ kb traced = kb plain.
Proof.
  destruct s as [sym text]. cbv zeta.
  destruct (after_NewCommandTraced sym text w) as (Htr & Hs & Ht & Hk).
  rewrite (calls_during_new _ _ _ Htr), calls_during_NewCommand.
  assert (Hmain :
    let calls := traced_symbol_calls sym text w in
    (forall v, In (CallCommonPrefix v) calls
               <-> sym = Symbol.tab /\ v = offered w
                   /\ 2 <= List.length (offered w))
    /\ count_calls isCommonPrefix calls <= 1
    /\ (forall v, In (CallCommonPrefix v) calls ->
          exists rest,
            calls = ([CallGetLine; CallGetCompletions (GetLine (terminal w));
                      CallCommonPrefix v] ++ rest)%list)
    /\ filter (fun c => negb (isCommonPrefix c)) calls
       = symbol_calls sym text w).
  { unfold traced_symbol_calls, symbol_calls. cbv zeta.
    destruct sym;
      try (split; [intros v; split;
                     [simpl; intuition discriminate
                     | intros [? _]; discriminate]
                  | split; [unfold count_calls; simpl; lia
                  | split; [intros v H; exfalso; simpl in H;
                            intuition discriminate
                           | reflexivity]]]).
    destruct (offered w) as [|c [|c' cs]].
    - split; [intros v; split;
                [simpl; intuition discriminate
                | intros (_ & _ & H); simpl in H; lia]
             | split; [unfold count_calls; simpl; lia
             | split; [intros v H; exfalso; simpl in H;
                       intuition discriminate
                      | reflexivity]]].
    - split; [intros v; split;
                [simpl; intuition discriminate
                | intros (_ & _ & H); simpl in H; lia]
             | split; [unfold count_calls; simpl; lia
             | split; [intros v H; exfalso; simpl in H;
                       intuition discriminate
                      | reflexivity]]].
    - assert (Hin : forall v tail,
        (forall x, ~ In (CallCommonPrefix x) tail) ->
        In (CallCommonPrefix v)
           ([CallGetLine; CallGetCompletions (GetLine (terminal w));
             CallCommonPrefix (c :: c' :: cs)] ++ tail)%list
        <-> v = c :: c' :: cs).
      { intros v tail Htail. simpl. split.
        - intros [H | [H | [H | H]]]; try discriminate.
          + now injection H.
          + destruct (Htail v H).
        - intros ->. right. right. left. reflexivity. }
      match goal with |- context [(?a <? ?b)%nat] => destruct (a <? b)%nat end.
      + split; [|split; [simpl; unfold count_calls; simpl; lia|split]].
        * intros v. rewrite Hin by (simpl; intuition discriminate).
          split; [intros ->; repeat split; simpl; lia | intros (_ & H & _); exact H].
        * intros v H. apply Hin in H; [|simpl; intuition discriminate].
          subst v. eexists. reflexivity.
        * reflexivity.
      + split; [|split; [simpl; unfold count_calls; simpl; lia|split]].
        * intros v. rewrite Hin by (simpl; intuition discriminate).
          split; [intros ->; repeat split; simpl; lia | intros (_ & H & _); exact H].
        * intros v H. apply Hin in H; [|simpl; intuition discriminate].
          subst v. eexists. reflexivity.
        * reflexivity. }
  cbv zeta in Hmain. destruct Hmain as (Hiff & Hcount & Hpos & Hfilter).
  cbn [fst].
  split; [|split; [exact Hiff | split; [exact Hcount | split; [exact Hpos |
    split; [exact Hfilter | split; [exact Hs | split; [exact Ht | exact Hk]]]]]]].
  intros v Hv. apply Hiff in Hv. destruct Hv as (_ & -> & H2). exact H2.
Qed.

(** The resolver is reached for two candidates and for no fewer. *)
Example CommonPrefix_call_on_record :
  calls_during (NewCommandTraced (Symbol.tab, ""))
               (typed ["stop"; "store"] "s")
  = [CallGetLine; CallGetCompletions "s";
     CallCommonPrefix ["stop"; "store"]; CallSetLine "sto"]
  /\ calls_during (NewCommandTraced (Symbol.tab, ""))
                  (typed ["status"] "stat")
     = [CallGetLine; CallGetCompletions "stat"; CallSetLine "status "]
  /\ calls_during (NewCommandTraced (Symbol.tab, "")) (typed [] "xyz")
     = [CallGetLine; CallGetCompletions "xyz"].
Proof. repeat split. Qed.

Lemma CommonPrefix_called_with_two_or_more_witness :
  let calls := calls_during (NewCommandTraced (Symbol.tab, ""))
                            (typed ["stop"; "store"] "s") in
  In (CallCommonPrefix ["stop"; "store"]) calls
  /\ (forall v, In (CallCommonPrefix v) calls -> 2 <= List.length v).
Proof.
  split.
  - right. right. left. reflexivity.
  - exact (proj1 (CommonPrefix_called_with_two_or_more
                    (Symbol.tab, "") (typed ["stop"; "store"] "s"))).
Defined.

(* ===================================================================== *)
(** * Session calls that throw *)
(* ===================================================================== *)

Section ThrowingFacts.

Context {S : Type} {TS : ThrowingSession S}.

Lemma runX_bind {A B} (m : MX A) (f : A -> MX B) (w : World S) :
  runX (bind m f) w
  = match runX m w with
    | (Some a, w1) => runX (f a) w1
    | (None, w1) => (None, w1)
    end.
Proof.
  unfold runX. cbn. destruct (runState (unOptionT m) w) as [[a|] w1];
    reflexivity.
Qed.

Lemma runX_returns {A} (m : state (World S) A) (w : World S) :
  runX (returns m) w = (Some (fst (runState m w)), snd (runState m w)).
Proof. unfold runX, returns. cbn. now destruct (runState m w). Qed.

Ltac outcome :=
  match goal with
  | |- context [Exit_or_throw ?a] =>
      is_var a; destruct (Exit_or_throw a) as [[[]|] ?]
  | |- context [Feed_or_throw ?c ?a] =>
      is_var a; destruct (Feed_or_throw c a) as [[[]|] ?]
  | |- context [NextCmd_or_throw ?a] =>
      is_var a; destruct (NextCmd_or_throw a) as [[?|] ?]
  | |- context [PreviousCmd_or_throw ?l ?a] =>
      is_var a; destruct (PreviousCmd_or_throw l a) as [[?|] ?]
  | |- context [GetCompletions_or_throw ?l ?a] =>
      is_var a; destruct (GetCompletions_or_throw l a) as [[?|] ?]
  | |- context [OutStream_or_throw ?x ?a] =>
      is_var a; destruct (OutStream_or_throw x a) as [[[]|] ?]
  | |- context [Prompt_or_throw ?a] =>
      is_var a; destruct (Prompt_or_throw a) as [[[]|] ?]
  end;
  cbn -[Nat.ltb Nat.eqb listing CommonPrefix].

Ltac settled :=
  let H := fresh "H" in
  intros H; first [discriminate H | injection H as <-; reflexivity].

(** A handling that returns is the handling of the session that returns:
    no call threw, so each gave the answer [session_that_returns] keeps. *)
Lemma NewCommandThrowing_returns (s : Symbol.t * string) (w w' : World S) :
  runX (NewCommandThrowing s) w = (Some tt, w') ->
  runState (NewCommand (Sess := session_that_returns TS) s) w = (tt, w').
Proof.
  destruct s as [sym text]. destruct w as [s t k tr].
  destruct sym;
    unfold runX, NewCommandThrowing, NewCommandOver, NewCommand,
      NewCommandUsing;
    cbn -[Nat.ltb Nat.eqb listing CommonPrefix].
  - settled.
  - outcome; settled.
  - outcome; [outcome|]; settled.
  - outcome; settled.
  - outcome; settled.
  - outcome; [|settled].
    match goal with cs : list string |- _ =>
      destruct cs as [|c [|c' cs]] end;
      cbn -[Nat.ltb listing CommonPrefix]; try settled.
    match goal with |- context [(?a <? ?b)%nat] => destruct (a <? b)%nat end;
      cbn -[listing CommonPrefix]; [settled|].
    outcome; [|settled]. outcome; [|settled]. outcome; [|settled].
    outcome; settled.
  - outcome; settled.
Qed.

Variable KeyType : Type.
Variable translate :
  KeyType * ascii -> Terminal -> (Symbol.t * string) * Terminal.

Lemma run_bind {A B} (m : M A) (f : A -> M B) (w : World S) :
  runState (bind m f) w
  = runState (f (fst (runState m w))) (snd (runState m w)).
Proof. cbn. now destruct (runState m w). Qed.

Lemma KeypressedThrowing_returns (k : KeyType * ascii) (w w' : World S) :
  runX (KeypressedThrowing KeyType translate k) w = (Some tt, w') ->
  runState (Keypressed (Sess := session_that_returns TS) KeyType translate k) w
  = (tt, w').
Proof.
  unfold KeypressedThrowing, Keypressed.
  rewrite runX_bind, runX_returns, run_bind.
  apply NewCommandThrowing_returns.
Qed.

Lemma KeypressesThrowing_returns (ks : list (KeyType * ascii)) :
  forall w w' : World S,
  runX (KeypressesThrowing KeyType translate ks) w = (Some tt, w') ->
  runState (Keypresses (Sess := session_that_returns TS) KeyType translate ks) w
  = (tt, w').
Proof.
  induction ks as [|k rest IH]; intros w w'.
  - unfold runX. cbn. congruence.
  - cbn [KeypressesThrowing Keypresses]. rewrite runX_bind, run_bind.
    destruct (runX (KeypressedThrowing KeyType translate k) w)
      as [[[]|] w1] eqn:E; [|discriminate].
    rewrite (KeypressedThrowing_returns _ _ _ E). cbn [fst snd]. apply IH.
Qed.

End ThrowingFacts.

Import Crashing.

(** X7. A run of key events that returns leaves the input device active.
    For a session whose calls may throw: if no call threw during the run,
    so that the run returned, an input device active before it is active
    after it, whatever the keys and the translator. What a throw does to
    the device is stated on its own below. *)
Theorem input_active_after_returning_run {S} {TS : ThrowingSession S}
    (KeyType : Type)
    (translate : KeyType * ascii -> Terminal -> (Symbol.t * string) * Terminal)
    (ks : list (KeyType * ascii)) (w w' : World S) :
  runX (KeypressesThrowing KeyType translate ks) w = (Some tt, w') ->
  active (kb w) = true ->
  active (kb w') = true.
Proof.
  intros Hrun Hact. apply KeypressesThrowing_returns in Hrun.
  pose proof (kb_active_after_Keypresses (Sess := session_that_returns TS)
                KeyType translate ks w Hact) as H.
  unfold after, execState in H. rewrite Hrun in H. exact H.
Qed.

Lemma input_active_after_returning_run_witness :
  let keys := [(Typing.printable, "l"%char); (Typing.printable, "s"%char);
               (Typing.ret, " "%char); (Typing.tabulator, " "%char);
               (Typing.ctrl_d, " "%char)] in
  let w := typed ["status"; "stop"] "" in
  let run := runX (KeypressesThrowing Typing.KeyType Typing.translator keys) w in
  fst run = Some tt /\ active (kb (snd run)) = true.
Proof.
  split; [reflexivity|].
  refine (input_active_after_returning_run Typing.KeyType Typing.translator
            [(Typing.printable, "l"%char); (Typing.printable, "s"%char);
             (Typing.ret, " "%char); (Typing.tabulator, " "%char);
             (Typing.ctrl_d, " "%char)]
            (typed ["status"; "stop"] "") _ _ _); reflexivity.
Defined.

(** X8. In a run of key events that returns, the input device is
    deactivated as often as it is reactivated, and the session is fed once
    per deactivation. For a session whose calls may throw, the counts are
    those of a run in which no call threw. *)
Theorem calls_paired_in_returning_run {S} {TS : ThrowingSession S}
    (KeyType : Type)
    (translate : KeyType * ascii -> Terminal -> (Symbol.t * string) * Terminal)
    (ks : list (KeyType * ascii)) (w w' : World S) :
  runX (KeypressesThrowing KeyType translate ks) w = (Some tt, w') ->
  let calls := calls_between w w' in
  count_calls isDeactivateInput calls = count_calls isActivateInput calls
  /\ count_calls isFeed calls = count_calls isDeactivateInput calls.
Proof.
  intros Hrun. apply KeypressesThrowing_returns in Hrun.
  pose proof (calls_paired_after_Keypresses (Sess := session_that_returns TS)
                KeyType translate ks w) as H.
  unfold calls_during, after, execState in H. rewrite Hrun in H. exact H.
Qed.

Lemma calls_paired_in_returning_run_witness :
  let keys := [(Typing.printable, "l"%char); (Typing.printable, "s"%char);
               (Typing.ret, " "%char); (Typing.ret, " "%char);
               (Typing.ctrl_d, " "%char)] in
  let w := typed [] "" in
  let run := runX (KeypressesThrowing Typing.KeyType Typing.translator keys) w in
  let calls := calls_between w (snd run) in
  fst run = Some tt
  /\ count_calls isDeactivateInput calls = 2
  /\ count_calls isDeactivateInput calls = count_calls isActivateInput calls
  /\ count_calls isFeed calls = count_calls isDeactivateInput calls.
Proof.
  split; [reflexivity|]. split; [reflexivity|].
  refine (calls_paired_in_returning_run Typing.KeyType Typing.translator
            [(Typing.printable, "l"%char); (Typing.printable, "s"%char);
             (Typing.ret, " "%char); (Typing.ret, " "%char);
             (Typing.ctrl_d, " "%char)]
            (typed [] "") _ _); reflexivity.
Defined.

(** X17. A [command] whose execution throws leaves the input device
    deactivated. Lines 106-109 have no guard: if [Feed] throws, the calls
    are [DeactivateInput] and [Feed] only; if [Prompt] throws, they are
    [DeactivateInput], [Feed] and [Prompt]; either way [ActivateInput] is
    not reached and the device stays inactive. Only when both return is
    the device reactivated. *)
Theorem command_that_throws_leaves_input_inactive
    {S} {TS : ThrowingSession S} (text : string) (w : World S) :
  let fed := Feed_or_throw text (session w) in
  let prompted := Prompt_or_throw (snd fed) in
  let run := runX (NewCommandThrowing (Symbol.command, text)) w in
  let calls := calls_between w (snd run) in
  match fst fed, fst prompted with
  | None, _ =>
      fst run = None
      /\ active (kb (snd run)) = false
      /\ calls = [CallDeactivateInput; CallFeed text]
      /\ session (snd run) = snd fed
  | Some _, None =>
      fst run = None
      /\ active (kb (snd run)) = false
      /\ calls = [CallDeactivateInput; CallFeed text; CallPrompt]
      /\ session (snd run) = snd prompted
  | Some _, Some _ =>
      fst run = Some tt
      /\ active (kb (snd run)) = true
      /\ calls = [CallDeactivateInput; CallFeed text; CallPrompt;
                  CallActivateInput]
      /\ session (snd run) = snd prompted
  end.
Proof.
  destruct w as [s t k tr]. cbv zeta.
  unfold runX, NewCommandThrowing, NewCommandOver, calls_between.
  cbn -[skipn].
  destruct (Feed_or_throw text s) as [[[]|] s1]; cbn -[skipn].
  - destruct (Prompt_or_throw s1) as [[[]|] s2]; cbn -[skipn];
      rewrite <- ?app_assoc; cbn [app]; rewrite skipn_length_app;
      repeat split.
  - rewrite <- ?app_assoc; cbn [app]; rewrite skipn_length_app.
    repeat split.
Qed.

(** The scripted session fed [crash]: the handling does not return, the
    command was recorded, no prompt follows and the input stays off. *)
Example crash_leaves_input_off :
  let run := runX (NewCommandThrowing (Symbol.command, "crash")) (typed [] "") in
  fst run = None
  /\ trace (snd run) = [CallDeactivateInput; CallFeed "crash"]
  /\ fed (session (snd run)) = ["crash"]
  /\ written (session (snd run)) = ""
  /\ active (kb (snd run)) = false.
Proof. repeat split. Qed.
